(** * Sales dashboard (dashboard/dashboard.py): aggregations and display routines

    The dashboard reads one pre-joined sales table, parses its two timestamp
    columns, and runs four display routines that aggregate the table and
    append elements to a page.

    Modelling choices.
    - A record of the table is a [Row]; a frame is a list of rows, in file
      order.  A Series (one column) is a list aligned with the rows.
    - [total_price] is a binary64 float, given by its exact value, a
      rational.  The float operations of the KPI routine (the sum of a
      column, the sum of a group, the mean of a column) are the methods of
      the class [Float64]: how the library accumulates a sum depends on the
      path through it, so the properties are proved for every choice of
      them.
      [binary64] is the instance that rounds to 53 bits and adds left to
      right, as the library does on a short column; the sample tables run
      on it.  Infinities and NaN from overflow are not modelled.
    - The pie keeps each wedge as its value and the total (the library
      holds their float32 quotient), and the text on a wedge as the format
      and these two.
    - [to_datetime] on the two columns is modelled on the layout of the data
      file, [YYYY-MM-DD hh:mm:ss]; the other layouts the library reads are
      outside the model, and nothing is stated about which files load.
    - Every cell is present (no empty cell in the file).
    - Frames are objects on a heap and variables hold references, so that
      the assignments to columns are writes to a shared object.
    - The routines are written in a state-and-exception monad over the heap,
      the figure stack of the plotting library and the page.  An exception
      keeps the effects that happened before it.
    - Text that is formatted for display (currency, digit grouping, an
      f-string) is kept as the value and the format applied to it.
    - The two configuration calls at the top of the module (plot theme, page
      title and layout) show no data and are left out. *)

From Stdlib Require Import ZArith QArith Qround Qabs List String Ascii Bool Lia.
From Stdlib Require Import Permutation Sorted OrderedTypeEx DecimalString.
Import ListNotations.

Local Open Scope Z_scope.

(** ** Dates and timestamps *)

Record Date := mkDate { year : Z; month : Z; day : Z }.

Record Timestamp := mkStamp { date : Date; hour : Z; minute : Z; second : Z }.

Definition is_leap (y : Z) : bool :=
  ((y mod 4 =? 0) && negb (y mod 100 =? 0)) || (y mod 400 =? 0).

Definition days_in_month (y m : Z) : Z :=
  if m =? 2 then (if is_leap y then 29 else 28)
  else if (m =? 4) || (m =? 6) || (m =? 9) || (m =? 11) then 30
  else 31.

Definition valid_date (d : Date) : bool :=
  (1 <=? month d) && (month d <=? 12) &&
  (1 <=? day d) && (day d <=? days_in_month (year d) (month d)).

(** A nanosecond timestamp covers the years 1678 to 2261 in full; the model
    reads those. *)
Definition valid_stamp (t : Timestamp) : bool :=
  (1678 <=? year (date t)) && (year (date t) <=? 2261) &&
  valid_date (date t) &&
  (0 <=? hour t) && (hour t <? 24) &&
  (0 <=? minute t) && (minute t <? 60) &&
  (0 <=? second t) && (second t <? 60).

(** Comparison of [datetime.date] values: by year, then month, then day. *)
Definition date_compare (a b : Date) : comparison :=
  match year a ?= year b with
  | Eq => match month a ?= month b with
          | Eq => day a ?= day b
          | c => c
          end
  | c => c
  end.

Definition date_leb (a b : Date) : bool :=
  match date_compare a b with Gt => false | _ => true end.

(** ** Parsing the timestamp text of the file

    [pd.to_datetime] on the layout the file uses, [YYYY-MM-DD] optionally
    followed by [ hh:mm:ss].  Text it cannot read makes it raise. *)

Definition digit (c : ascii) : option Z :=
  let n := Z.of_N (N_of_ascii c) in
  if (48 <=? n) && (n <=? 57) then Some (n - 48) else None.

Fixpoint number_from (acc : Z) (s : string) : option Z :=
  match s with
  | EmptyString => Some acc
  | String c s' =>
      match digit c with
      | Some d => number_from (10 * acc + d) s'
      | None => None
      end
  end.

Definition field (i n : nat) (s : string) : option Z :=
  let f := substring i n s in
  if Nat.eqb (String.length f) n then number_from 0 f else None.

Definition sep_at (i : nat) (c : ascii) (s : string) : bool :=
  match String.get i s with
  | Some c' => Ascii.eqb c c'
  | None => false
  end.

Definition parse_date (s : string) : option Date :=
  if sep_at 4 "-" s && sep_at 7 "-" s then
    match field 0 4 s, field 5 2 s, field 8 2 s with
    | Some y, Some m, Some d => Some (mkDate y m d)
    | _, _, _ => None
    end
  else None.

Definition parse_time (s : string) : option (Z * Z * Z) :=
  if sep_at 10 " " s && sep_at 13 ":" s && sep_at 16 ":" s then
    match field 11 2 s, field 14 2 s, field 17 2 s with
    | Some h, Some m, Some x => Some (h, m, x)
    | _, _, _ => None
    end
  else None.

Definition parse_timestamp (s : string) : option Timestamp :=
  let checked t := if valid_stamp t then Some t else None in
  if Nat.eqb (String.length s) 10 then
    match parse_date s with
    | Some d => checked (mkStamp d 0 0 0)
    | None => None
    end
  else if Nat.eqb (String.length s) 19 then
    match parse_date s, parse_time s with
    | Some d, Some (h, m, x) => checked (mkStamp d h m x)
    | _, _ => None
    end
  else None.

(** ** The table *)

(** A cell of a timestamp column: the text [read_csv] leaves there, or the
    timestamp [to_datetime] puts in its place. *)
Inductive TimeCell :=
| Raw (s : string)
| Stamp (t : Timestamp).

(** One sales record.  [order_purchase_date] is the column the orders-per-day
    routine adds to its own frame; the file has no such column ([None]). *)
Record Row := mkRow {
  order_id : string;
  customer_unique_id : string;
  customer_city : string;
  order_purchase_timestamp : TimeCell;
  order_delivered_customer_date : TimeCell;
  total_price : Q;
  payment_type : string;
  order_purchase_date : option Date
}.

Definition Frame := list Row.

Definition set_order_purchase_timestamp (c : TimeCell) (r : Row) : Row :=
  mkRow (order_id r) (customer_unique_id r) (customer_city r) c
        (order_delivered_customer_date r) (total_price r) (payment_type r)
        (order_purchase_date r).

Definition set_order_delivered_customer_date (c : TimeCell) (r : Row) : Row :=
  mkRow (order_id r) (customer_unique_id r) (customer_city r)
        (order_purchase_timestamp r) c (total_price r) (payment_type r)
        (order_purchase_date r).

Definition set_order_purchase_date (d : Date) (r : Row) : Row :=
  mkRow (order_id r) (customer_unique_id r) (customer_city r)
        (order_purchase_timestamp r) (order_delivered_customer_date r)
        (total_price r) (payment_type r) (Some d).

(** ** Keys of a grouping *)

(** [groupby] sorts its groups by key; the keys here are strings and dates. *)
Class KeyCmp (K : Type) := cmp : K -> K -> comparison.

#[export] Instance KeyCmp_string : KeyCmp string := String.compare.

#[export] Instance KeyCmp_Date : KeyCmp Date := date_compare.

Definition keqb {K} `{KeyCmp K} (a b : K) : bool :=
  match cmp a b with Eq => true | _ => false end.

(** The laws the comparisons obey (proved for both instances below). *)
Class KeyOrd (K : Type) `{KeyCmp K} : Prop := {
  cmp_eq : forall a b : K, cmp a b = Eq <-> a = b;
  cmp_antisym : forall a b : K, cmp a b = CompOpp (cmp b a);
  cmp_trans : forall a b c : K, cmp a b = Lt -> cmp b c = Lt -> cmp a c = Lt
}.

(** ** Grouping

    [groupby] collects the rows of each key, keeps the rows of a group in
    table order, and lists the groups by increasing key (pandas' default
    [sort=True]). *)
Section GroupBy.
Context {K : Type} `{KeyCmp K} {R : Type}.
Variable key : R -> K.

Fixpoint insert_group (r : R) (gs : list (K * list R)) : list (K * list R) :=
  match gs with
  | [] => [(key r, [r])]
  | (k, rs) :: gs' =>
      match cmp (key r) k with
      | Lt => (key r, [r]) :: gs
      | Eq => (k, r :: rs) :: gs'
      | Gt => (k, rs) :: insert_group r gs'
      end
  end.

Definition groupby (rows : list R) : list (K * list R) :=
  fold_right insert_group [] rows.
End GroupBy.

(** The value a keyed Series holds at [k], if [k] is in its index. *)
Fixpoint at_key {K} `{KeyCmp K} {V} (k : K) (s : list (K * V)) : option V :=
  match s with
  | [] => None
  | (k', v) :: s' => if keqb k k' then Some v else at_key k s'
  end.

(** ** Series operations *)

(** The float operations of the module: [Series.sum()] of a float column,
    [groupby(...).sum()] of one group, and [Series.mean()] of a float column
    with at least one value.  A float is given by its exact value. *)
Class Float64 := {
  Series_sum : list Q -> Q;
  GroupBy_sum : list Q -> Q;
  mean_of : list Q -> Q
}.

(** [mean] of an empty Series is NaN, here [None]. *)
Definition Series_mean {F : Float64} (xs : list Q) : option Q :=
  match xs with
  | [] => None
  | _ => Some (mean_of xs)
  end.

(** The sum of rationals, with no rounding. *)
Definition exact_sum (xs : list Q) : Q := fold_right Qplus 0%Q xs.

(** [max] of an empty Series is NaN, here [None]. *)
Definition Series_max (xs : list Z) : option Z :=
  match xs with
  | [] => None
  | x :: xs' => Some (fold_right Z.max x xs')
  end.

Definition nunique (xs : list string) : nat :=
  List.length (nodup string_dec xs).

(** Python's [round] to an integer: to the nearest, a tie to the even one. *)
Definition round_half_even (q : Q) : Z :=
  let f := Qfloor q in
  match (q - inject_Z f ?= 1 # 2)%Q with
  | Lt => f
  | Gt => f + 1
  | Eq => if Z.even f then f else f + 1
  end.

(** *** Rounding to binary floating point

    [round_to p q] is [q] rounded to the nearest number with [p] significant
    bits, a tie to the even one; the range of the exponent is not
    modelled. *)

(** [floor (log2 q)], for [q > 0]. *)
Definition ilog2 (q : Q) : Z :=
  let e := Z.log2 (Qnum q) - Z.log2 (Zpos (Qden q)) in
  if Qle_bool (Qpower 2 e) q then e else e - 1.

Definition round_to (p : Z) (q : Q) : Q :=
  match Qnum q with
  | 0 => 0%Q
  | _ =>
      let a := Qabs q in
      let s := p - 1 - ilog2 a in
      let v := Qred (inject_Z (round_half_even (a * Qpower 2 s)) * Qpower 2 (- s)) in
      if Qle_bool 0 q then v else (- v)%Q
  end.

(** The binary64 float nearest to [q]. *)
Definition double (q : Q) : Q := round_to 53 q.

(** Binary64 arithmetic that adds a column from its first value to its
    last, rounding each partial sum, and takes the mean as that sum over the
    count, rounded: what the library computes on a column of a few
    values. *)
Definition left_to_right (xs : list Q) : Q :=
  fold_left (fun acc x => double (acc + x)) xs 0%Q.

Definition binary64 : Float64 := {|
  Series_sum := left_to_right;
  GroupBy_sum := left_to_right;
  mean_of := fun xs => double (left_to_right xs / inject_Z (Z.of_nat (List.length xs)))
|}.

(** Rows picked by a boolean Series aligned with them. *)
Fixpoint select {R} (mask : list bool) (rows : list R) : list R :=
  match mask, rows with
  | b :: mask', r :: rows' =>
      if b then r :: select mask' rows' else select mask' rows'
  | _, _ => []
  end.

(** Elementwise [&] of two boolean Series. *)
Fixpoint mask_and (a b : list bool) : list bool :=
  match a, b with
  | x :: a', y :: b' => (x && y) :: mask_and a' b'
  | _, _ => []
  end.

(** [sort_values(by=..., ascending=False)] on the counts: larger counts first.
    pandas leaves the order among equal counts to its sorting routine; here
    equal counts keep their order.  Nothing proved below depends on it. *)
Fixpoint insert_desc {A} (x : A * nat) (l : list (A * nat)) : list (A * nat) :=
  match l with
  | [] => [x]
  | y :: l' => if (snd y <=? snd x)%nat then x :: l else y :: insert_desc x l'
  end.

Definition sort_values_desc {A} (l : list (A * nat)) : list (A * nat) :=
  fold_right insert_desc [] l.

(** ** What is shown *)

Inductive Text :=
| Lit (s : string)
| Currency (amount : Q) (currency locale : string)
| Int (z : Z)
| Grouped (n : nat)
| Fstr (prefix : string) (z : Z)
| Percent (format : string) (x total : nat).

Record Bar := mkBar { bar_x : string; bar_height : nat; bar_color : string }.

(** A wedge of a pie: its size is the value [wedge_x] out of the sum
    [wedge_total] of all values; [wedge_text] is what is printed on it. *)
Record Wedge := mkWedge {
  wedge_label : string;
  wedge_x : nat;
  wedge_total : nat;
  wedge_color : string;
  wedge_text : Text
}.

Inductive Artist :=
| BarPlot (bars : list Bar)
| Pie (wedges : list Wedge) (autopct : string) (fontsize : nat)
| XLabel (s : string) (fontsize : nat)
| YLabel (s : string) (fontsize : nat)
| TickParams (axis : string) (rotation : option nat) (labelsize : nat)
| TightLayout
| PlotTitle (s : string) (fontsize : nat)
| Axis (mode : string).

Record Figure := mkFigure { figsize : nat * nat; artists : list Artist }.

(** [InColumn i e] is [e] placed in column [i] of the latest row of columns
    of its container.  [Swatch color label] is the markdown produced by
    [svg(color, label)]: a square filled with [color], then [label]. *)
Inductive Element :=
| Title (t : Text)
| Subheader (t : Text)
| Markdown (s : string)
| Swatch (color label : string)
| Columns (weights : list nat)
| DateInput (label : string) (value : Date * Date) (min_value max_value : Date)
| BarChart (data : list (Date * nat)) (height : nat)
| Pyplot (fig : Figure)
| InColumn (i : nat) (e : Element).

(** ** The running process *)

Definition loc := nat.

Record World := mkWorld {
  heap : list Frame;
  figures : list Figure;
  page : list Element
}.

Inductive Exn := NameError | ValueError | AttributeError | KeyError | IndexError.

Definition M (A : Type) : Type := World -> (Exn + A) * World.

Definition ret {A} (a : A) : M A := fun w => (inr a, w).

Definition raise {A} (e : Exn) : M A := fun w => (inl e, w).

Definition bind {A B} (m : M A) (k : A -> M B) : M B := fun w =>
  match m w with
  | (inr a, w') => k a w'
  | (inl e, w') => (inl e, w')
  end.

Declare Scope dash_scope.
Delimit Scope dash_scope with dash.
Notation "x <- m ;; k" := (bind m (fun x => k))
  (at level 61, m at next level, right associativity) : dash_scope.
Notation "m ;; k" := (bind m (fun _ => k))
  (at level 61, right associativity) : dash_scope.
Local Open Scope dash_scope.

Definition lift {A} (e : Exn) (o : option A) : M A :=
  match o with Some a => ret a | None => raise e end.

(** *** The heap of frames *)

Definition load (l : loc) : M Frame := fun w =>
  match nth_error (heap w) l with
  | Some df => (inr df, w)
  | None => (inl NameError, w)
  end.

Definition alloc (df : Frame) : M loc := fun w =>
  (inr (List.length (heap w)), mkWorld (heap w ++ [df]) (figures w) (page w)).

Fixpoint update {A} (l : list A) (i : nat) (x : A) : list A :=
  match l, i with
  | [], _ => []
  | _ :: l', O => x :: l'
  | y :: l', S i' => y :: update l' i' x
  end.

Definition store (l : loc) (df : Frame) : M unit := fun w =>
  (inr tt, mkWorld (update (heap w) l df) (figures w) (page w)).

(** [df[mask]]: a new frame with the rows the mask picks. *)
Definition getitem_mask (l : loc) (mask : list bool) : M loc :=
  df <- load l ;;
  if Nat.eqb (List.length mask) (List.length df)
  then alloc (select mask df)
  else raise ValueError.

(** [df[column] = series]: a write to the frame [l] refers to. *)
Definition setitem {C} (set : C -> Row -> Row) (l : loc) (s : list C) : M unit :=
  df <- load l ;;
  if Nat.eqb (List.length s) (List.length df)
  then store l (map (fun cr => set (fst cr) (snd cr)) (combine s df))
  else raise ValueError.

(** *** The page *)

Definition emit (e : Element) : M unit := fun w =>
  (inr tt, mkWorld (heap w) (figures w) (page w ++ [e])).

Definition st_title (t : Text) : M unit := emit (Title t).
Definition st_subheader (t : Text) : M unit := emit (Subheader t).
Definition st_markdown (s : string) : M unit := emit (Markdown s).
Definition st_swatch (color label : string) : M unit := emit (Swatch color label).
Definition st_columns (weights : list nat) : M unit := emit (Columns weights).
Definition st_bar_chart (data : list (Date * nat)) (height : nat) : M unit :=
  emit (BarChart data height).
Definition st_pyplot (fig : Figure) : M unit := emit (Pyplot fig).

(** [with col: body]: what [body] shows goes to column [i]. *)
Definition with_column {A} (i : nat) (body : M A) : M A := fun w =>
  match body (mkWorld (heap w) (figures w) []) with
  | (r, w') =>
      (r, mkWorld (heap w') (figures w') (page w ++ map (InColumn i) (page w')))
  end.

(** [st.date_input]: shows the selector and returns what the user picked in
    it, [picked]: a tuple of up to two dates. *)
Definition st_date_input (picked : list Date) (label : string)
    (value : Date * Date) (min_value max_value : Date) : M (list Date) :=
  emit (DateInput label value min_value max_value) ;;
  ret picked.

(** The dates the selector lets the user pick. *)
Definition admits (e : Element) (d : Date) : bool :=
  match e with
  | DateInput _ _ lo hi => date_leb lo d && date_leb d hi
  | _ => false
  end.

(** *** The figure stack of the plotting library *)

Definition plt_figure (size : nat * nat) : M unit := fun w =>
  (inr tt, mkWorld (heap w) (mkFigure size [] :: figures w) (page w)).

Definition draw (a : Artist) : M unit := fun w =>
  match figures w with
  | f :: fs =>
      (inr tt, mkWorld (heap w) (mkFigure (figsize f) (artists f ++ [a]) :: fs) (page w))
  | [] => (inr tt, mkWorld (heap w) [mkFigure (6, 4)%nat [a]] (page w))
  end.

Definition plt_gcf : M Figure := fun w =>
  match figures w with
  | f :: _ => (inr f, w)
  | [] => (inr (mkFigure (6, 4)%nat []), mkWorld (heap w) [mkFigure (6, 4)%nat []] (page w))
  end.

(** ** Loading the table (lines 13-20) *)

Fixpoint all_some {A} (l : list (option A)) : option (list A) :=
  match l with
  | [] => Some []
  | Some a :: l' =>
      match all_some l' with
      | Some r => Some (a :: r)
      | None => None
      end
  | None :: _ => None
  end.

Definition to_datetime_cell (c : TimeCell) : option TimeCell :=
  match c with
  | Raw s =>
      match parse_timestamp s with
      | Some t => Some (Stamp t)
      | None => None
      end
  | Stamp t => Some (Stamp t)
  end.

(** [pd.to_datetime] on a column. *)
Definition pd_to_datetime (s : list TimeCell) : M (list TimeCell) :=
  lift ValueError (all_some (map to_datetime_cell s)).

(** [pd.read_csv]: [file] is the table the file holds, its timestamp columns
    still text. *)
Definition pd_read_csv (file : Frame) : M loc := alloc file.

(** The statements of the module that run before [main]; the result is the
    frame the global name [datas] refers to. *)
Definition module_init (file : Frame) : M loc :=
  datas <- pd_read_csv file ;;
  df <- load datas ;;
  s <- pd_to_datetime (map order_purchase_timestamp df) ;;
  setitem set_order_purchase_timestamp datas s ;;
  df <- load datas ;;
  s <- pd_to_datetime (map order_delivered_customer_date df) ;;
  setitem set_order_delivered_customer_date datas s ;;
  ret datas.

(** ** display_dashboard_kpis *)

(** [df.groupby("order_id")["total_price"].sum()] *)
Definition order_totals {F : Float64} (df : Frame) : list (string * Q) :=
  map (fun g => (fst g, GroupBy_sum (map total_price (snd g)))) (groupby order_id df).

(** [round(x)] raises on NaN. *)
Definition py_round (x : option Q) : M Z :=
  match x with
  | Some q => ret (round_half_even q)
  | None => raise ValueError
  end.

Definition total_sales_revenue {F : Float64} (df : Frame) : Q :=
  Series_sum (map total_price df).

Definition number_of_orders (df : Frame) : nat :=
  nunique (map order_id df).

Definition kpi_column (i : nat) (heading : string) (value : Text) : M unit :=
  with_column i
    (st_markdown "---" ;;
     st_subheader (Lit heading) ;;
     st_subheader value ;;
     st_markdown "---").

Definition display_dashboard_kpis {F : Float64} (datas : loc) : M unit :=
  df <- load datas ;;
  let revenue := Currency (total_sales_revenue df) "USD" "en_US" in
  df <- load datas ;;
  average_order_value <- py_round (Series_mean (map snd (order_totals df))) ;;
  df <- load datas ;;
  let orders := number_of_orders df in
  st_columns [1; 1; 1]%nat ;;
  kpi_column 0 "Total Revenue" revenue ;;
  kpi_column 1 "Average Order Value" (Int average_order_value) ;;
  kpi_column 2 "Total Orders" (Grouped orders).

(** ** display_orders_per_day_latest_year *)

(** The [.dt] accessor: only a column of timestamps has it. *)
Definition dt {A} (f : Timestamp -> A) (s : list TimeCell) : M (list A) :=
  lift AttributeError
    (all_some (map (fun c => match c with
                             | Stamp t => Some (f t)
                             | Raw _ => None
                             end) s)).

(** [series == latest_year]; nothing equals NaN. *)
Definition eq_year (latest : option Z) (y : Z) : bool :=
  match latest with
  | Some m => y =? m
  | None => false
  end.

Definition str_int (z : Z) : string := NilZero.string_of_int (Z.to_int z).

(** [pd.to_datetime(f"{latest_year}" + suffix)] *)
Definition to_datetime_fstring (latest : option Z) (suffix : string) : M Timestamp :=
  match latest with
  | Some y => lift ValueError (parse_timestamp (str_int y ++ suffix))
  | None => raise ValueError
  end.

(** [df["order_purchase_date"]] *)
Definition getitem_order_purchase_date (l : loc) : M (list Date) :=
  df <- load l ;;
  lift KeyError (all_some (map order_purchase_date df)).

(** [tuple[i]] *)
Definition index {A} (t : list A) (i : nat) : M A :=
  lift IndexError (nth_error t i).

(** [groupby(key).size()] with the key given as a Series. *)
Definition size_by {K} `{KeyCmp K} {R} (key : list K) (rows : list R) : list (K * nat) :=
  map (fun g => (fst g, List.length (snd g))) (groupby fst (combine key rows)).

Definition display_orders_per_day_latest_year (datas : loc) (picked : list Date) : M unit :=
  df <- load datas ;;
  years <- dt (fun t => year (date t)) (map order_purchase_timestamp df) ;;
  let latest_year := Series_max years in
  df <- load datas ;;
  years <- dt (fun t => year (date t)) (map order_purchase_timestamp df) ;;
  latest_year_orders <- getitem_mask datas (map (eq_year latest_year) years) ;;
  start_date <- to_datetime_fstring latest_year "-01-01" ;;
  end_date <- to_datetime_fstring latest_year "-12-31" ;;
  selected_date_range <-
    st_date_input picked "Select Date Range" (date start_date, date end_date)
      (date start_date) (date end_date) ;;
  lyo <- load latest_year_orders ;;
  dates <- dt date (map order_purchase_timestamp lyo) ;;
  setitem set_order_purchase_date latest_year_orders dates ;;
  c0 <- getitem_order_purchase_date latest_year_orders ;;
  s0 <- index selected_date_range 0 ;;
  c1 <- getitem_order_purchase_date latest_year_orders ;;
  s1 <- index selected_date_range 1 ;;
  filtered_orders <-
    getitem_mask latest_year_orders
      (mask_and (map (fun d => date_leb s0 d) c0) (map (fun d => date_leb d s1) c1)) ;;
  key <- getitem_order_purchase_date filtered_orders ;;
  fo <- load filtered_orders ;;
  let orders_per_day := size_by key fo in
  match latest_year with
  | Some y => st_title (Fstr "Number of Orders per Day in " y)
  | None => st_title (Lit "Number of Orders per Day in nan")
  end ;;
  st_bar_chart orders_per_day 400.

(** ** display_customer_demographic *)

(** [df.groupby("customer_city")["customer_unique_id"].nunique()], with the
    column named [total_users]. *)
Definition customer_city_count (df : Frame) : list (string * nat) :=
  map (fun g => (fst g, nunique (map customer_unique_id (snd g))))
      (groupby customer_city df).

Definition top_10_cities (df : Frame) : list (string * nat) :=
  firstn 5 (sort_values_desc (customer_city_count df)).

(** [sns.barplot]: one bar per row of [data], in its order, coloured by the
    palette in order.  (What the library does with no row at all depends on
    its version; the model draws no bar, and no property below relies on
    it.) *)
Definition sns_barplot (data : list (string * nat)) (palette : list string) : M unit :=
  draw (BarPlot (map (fun dc => mkBar (fst (fst dc)) (snd (fst dc)) (snd dc))
                     (combine data palette))).

Definition display_customer_demographic (datas : loc) : M unit :=
  df <- load datas ;;
  let top := top_10_cities df in
  let colors := ["lightgreen"; "skyblue"; "salmon"; "gold"; "orange"]%string in
  plt_figure (30, 26)%nat ;;
  sns_barplot top colors ;;
  draw (XLabel "" 12) ;;
  draw (YLabel "" 12) ;;
  draw (TickParams "x" (Some 90%nat) 50) ;;
  draw (TickParams "y" None 50) ;;
  draw TightLayout ;;
  fig <- plt_gcf ;;
  st_pyplot fig.

(** ** display_payment_distribution *)

(** [df.groupby("payment_type").size()], with the column named [counts]. *)
Definition payment_counts (df : Frame) : list (string * nat) :=
  map (fun g => (fst g, List.length (snd g))) (groupby payment_type df).

Definition filtered_payment_type (df : Frame) : list (string * nat) :=
  filter (fun pc => negb (String.eqb (fst pc) "not_defined")) (payment_counts df).

Definition Qnat (n : nat) : Q := inject_Z (Z.of_nat n).

(** Colour of wedge [i]: the colour list, taken round and round. *)
Definition cycle_color (colors : list string) (i : nat) : string :=
  nth (i mod List.length colors) colors ""%string.

Fixpoint wedges_from (i : nat) (total : nat) (autopct : string) (colors : list string)
    (xs : list (string * nat)) : list Wedge :=
  match xs with
  | [] => []
  | (label, x) :: xs' =>
      mkWedge label x total (cycle_color colors i) (Percent autopct x total)
        :: wedges_from (S i) total autopct colors xs'
  end.

(** [plt.pie(x, labels, autopct, colors, textprops)]: one wedge per value, in
    order, of size its [x] out of the sum of all [x]; on each wedge is
    printed [autopct] applied to 100 times that fraction. *)
Definition plt_pie (xs : list (string * nat)) (autopct : string)
    (colors : list string) (fontsize : nat) : M unit :=
  draw (Pie (wedges_from 0 (list_sum (map snd xs)) autopct colors xs) autopct fontsize).

Definition legend : list (string * string) :=
  [("lightcoral", "credit_card"); ("lightskyblue", "boleto");
   ("lightpink", "voucher"); ("lightseagreen", "debit_card")]%string.

Definition display_payment_distribution (datas : loc) : M unit :=
  df <- load datas ;;
  let shown := filtered_payment_type df in
  let colors := ["lightcoral"; "lightskyblue"; "lightpink"; "lightseagreen"]%string in
  st_columns [1; 2; 2; 2; 2; 1]%nat ;;
  with_column 1 (st_swatch "lightcoral" "credit_card") ;;
  with_column 2 (st_swatch "lightskyblue" "boleto") ;;
  with_column 3 (st_swatch "lightpink" "voucher") ;;
  with_column 4 (st_swatch "lightseagreen" "debit_card") ;;
  plt_figure (12, 8)%nat ;;
  plt_pie shown "%1.1f%%" colors 14 ;;
  draw (PlotTitle "Distribution of Payment Types" 16) ;;
  draw (Axis "equal") ;;
  fig <- plt_gcf ;;
  st_pyplot fig.

(** ** main *)

Definition main {F : Float64} (datas : loc) (picked : list Date) : M unit :=
  st_title (Lit "Sales Dashboard ✨") ;;
  display_dashboard_kpis datas ;;
  display_orders_per_day_latest_year datas picked ;;
  st_columns [1; 1]%nat ;;
  with_column 0
    (st_subheader (Lit "Customer Demographic") ;;
     display_customer_demographic datas) ;;
  with_column 1
    (st_subheader (Lit "Payment Method") ;;
     display_payment_distribution datas).

(** ** The script (lines 13-20 and 214-215) *)

(** The script, top to bottom: the module-level load, then [main]. *)
Definition script {F : Float64} (file : Frame) (picked : list Date) : M unit :=
  datas <- module_init file ;;
  main datas picked.

(** ** Reading the page *)

(** What a computation appends to the page, with its outcome. *)
Definition emitted {A} (m : M A) (w : World) : list Element :=
  skipn (List.length (page w)) (page (snd (m w))).

Definition shows {A} (m : M A) (w : World) : (Exn + A) * list Element :=
  (fst (m w), emitted m w).

Fixpoint strip (e : Element) : Element :=
  match e with
  | InColumn _ e' => strip e'
  | _ => e
  end.

(** The text shown right below the heading [h]. *)
Fixpoint shown_under (h : string) (els : list Element) : option Text :=
  match els with
  | [] => None
  | e :: rest =>
      match strip e, rest with
      | Subheader (Lit h'), e2 :: _ =>
          match strip e2 with
          | Subheader v => if String.eqb h h' then Some v else shown_under h rest
          | _ => shown_under h rest
          end
      | _, _ => shown_under h rest
      end
  end.

Fixpoint selector_of (els : list Element) : option Element :=
  match els with
  | [] => None
  | e :: rest =>
      match strip e with
      | DateInput _ _ _ _ => Some (strip e)
      | _ => selector_of rest
      end
  end.

Fixpoint chart_of (els : list Element) : option (list (Date * nat)) :=
  match els with
  | [] => None
  | e :: rest =>
      match strip e with
      | BarChart data _ => Some data
      | _ => chart_of rest
      end
  end.

(** The legend entries, as (colour, label), in page order. *)
Fixpoint legend_of (els : list Element) : list (string * string) :=
  match els with
  | [] => []
  | e :: rest =>
      match strip e with
      | Swatch color label => (color, label) :: legend_of rest
      | _ => legend_of rest
      end
  end.

Fixpoint first_some {A B} (f : A -> option B) (l : list A) : option B :=
  match l with
  | [] => None
  | a :: l' =>
      match f a with
      | Some b => Some b
      | None => first_some f l'
      end
  end.

Definition plot_of {B} (f : Artist -> option B) (els : list Element) : option B :=
  first_some (fun e => match strip e with
                       | Pyplot fig => first_some f (artists fig)
                       | _ => None
                       end) els.

Definition bars_of : list Element -> option (list Bar) :=
  plot_of (fun a => match a with BarPlot bars => Some bars | _ => None end).

Definition pie_of : list Element -> option (list Wedge) :=
  plot_of (fun a => match a with Pie wedges _ _ => Some wedges | _ => None end).

(** ** Vocabulary of the properties *)

(** The purchase date of a record whose timestamp is parsed. *)
Definition purchased (r : Row) : option Date :=
  match order_purchase_timestamp r with
  | Stamp t => Some (date t)
  | Raw _ => None
  end.

(** The purchase column is text, as [read_csv] leaves it. *)
Definition as_read (file : Frame) : bool :=
  forallb (fun r => match order_purchase_timestamp r with
                    | Raw _ => true
                    | Stamp _ => false
                    end) file.

(** The purchase column holds timestamps (the state after loading). *)
Definition parsed (df : Frame) : bool :=
  forallb (fun r => match order_purchase_timestamp r with
                    | Stamp t => valid_stamp t
                    | Raw _ => false
                    end) df.

Definition count_if {A} (p : A -> bool) (l : list A) : nat :=
  List.length (filter p l).

Definition on_date (d : Date) (r : Row) : bool :=
  match purchased r with
  | Some d' => keqb d' d
  | None => false
  end.

(** Purchased in year [y], on a date between [s] and [e]. *)
Definition in_selection (y : Z) (s e : Date) (r : Row) : bool :=
  match purchased r with
  | Some d => (year d =? y) && date_leb s d && date_leb d e
  | None => false
  end.

Definition of_order (o : string) (r : Row) : bool := String.eqb (order_id r) o.

Definition in_city (c : string) (r : Row) : bool := String.eqb (customer_city r) c.

Definition paid_by (p : string) (r : Row) : bool := String.eqb (payment_type r) p.

Definition defined_payment (r : Row) : bool :=
  negb (String.eqb (payment_type r) "not_defined").

(** Distinct customers of a city. *)
Definition distinct_customers (df : Frame) (c : string) : nat :=
  nunique (map customer_unique_id (filter (in_city c) df)).

(** A bar of a keyed chart: absent when there is nothing to count. *)
Definition bar (n : nat) : option nat :=
  match n with O => None | _ => Some n end.

(** [y] is the latest purchase year of the table. *)
Definition latest_year_is (df : Frame) (y : Z) : Prop :=
  (exists r d, In r df /\ purchased r = Some d /\ year d = y) /\
  (forall r d, In r df -> purchased r = Some d -> year d <= y).

(** The date selector bounded to the year [y]. *)
Definition selector (y : Z) : Element :=
  DateInput "Select Date Range" (mkDate y 1 1, mkDate y 12 31)
    (mkDate y 1 1) (mkDate y 12 31).

(** The prices of the records of order [o], in table order. *)
Definition order_prices (df : Frame) (o : string) : list Q :=
  map total_price (filter (of_order o) df).

(** Strings in increasing order, each once. *)
Definition increasing (l : list string) : Prop :=
  StronglySorted (fun a b => String.compare a b = Lt) l.

(** The exact share of a wedge: its value over the total. *)
Definition wedge_share (wd : Wedge) : Q :=
  (inject_Z (Z.of_nat (wedge_x wd)) / inject_Z (Z.of_nat (wedge_total wd)))%Q.

(** The percentage a text [Percent "%1.1f%%" x total] prints, in tenths of a
    percent: 100 x / total to one decimal, computed here from the exact
    quotient. *)
Definition printed_tenths (t : Text) : Z :=
  match t with
  | Percent _ x total =>
      round_half_even (1000 * inject_Z (Z.of_nat x) / inject_Z (Z.of_nat total))
  | _ => 0
  end.

(** A wedge as the legend would list it: (colour, label). *)
Definition slice (wd : Wedge) : string * string := (wedge_color wd, wedge_label wd).

(** The number an integer text shows. *)
Definition number_shown (t : Text) : option Q :=
  match t with
  | Int z => Some (inject_Z z)
  | _ => None
  end.

(** ** Sample tables *)

Definition sale (o c city ts : string) (p : Q) (pay : string) : Row :=
  mkRow o c city (Raw ts) (Raw "2018-01-05 10:00:00") p pay None.

(** A file of five records: order [o1] has two records on one day. *)
Definition sample_file : Frame :=
  [ sale "o1" "c1" "sao paulo" "2018-03-01 10:00:00" (21 # 2) "credit_card";
    sale "o1" "c1" "sao paulo" "2018-03-01 10:00:00" 5 "voucher";
    sale "o2" "c2" "rio" "2017-03-01 10:00:00" 7 "boleto";
    sale "o3" "c3" "rio" "2018-03-02 11:00:00" 3 "not_defined";
    sale "o4" "c2" "rio" "2018-12-31 23:59:59" (1 # 4) "credit_card" ]%string.

Definition empty_world : World := mkWorld [] [] [].

(** The process after the file is loaded. *)
Definition sample_world : World := snd (module_init sample_file empty_world).

Definition sample_table : Frame :=
  match nth_error (heap sample_world) 0 with
  | Some df => df
  | None => []
  end.

(** Another state that holds the same table, at location 1, after an empty
    frame; one figure is drawn and one title is on the page. *)
Definition busy_world : World :=
  mkWorld [[]; sample_table] [mkFigure (1, 1)%nat [TightLayout]] [Title (Lit "before")].

(** One record, one order, of price 10.5. *)
Definition one_sale : Frame :=
  [ mkRow "o1" "c1" "rio" (Stamp (mkStamp (mkDate 2018 3 1) 10 0 0))
      (Stamp (mkStamp (mkDate 2018 3 5) 10 0 0)) (21 # 2) "boleto" None ]%string.

(** A record of order [o], price [p], paid by [pay]. *)
Definition sold (o : string) (p : Q) (pay : string) : Row :=
  mkRow o "c1" "rio" (Stamp (mkStamp (mkDate 2018 3 1) 10 0 0))
    (Stamp (mkStamp (mkDate 2018 3 5) 10 0 0)) p pay None.

(** Three orders of one record each, of prices 0.1, 0.2 and 0.3 as the
    file reader gives them: the nearest floats. *)
Definition three_orders : Frame :=
  [ sold "c" (double (1 # 10)) "boleto";
    sold "a" (double (2 # 10)) "boleto";
    sold "b" (double (3 # 10)) "boleto" ]%string.

(** Seven records: 1 paid by boleto, 2 by credit_card, 3 by debit_card and
    1 by voucher. *)
Definition seven_payments : Frame :=
  [ sold "o1" 1 "boleto"; sold "o2" 1 "credit_card"; sold "o3" 1 "credit_card";
    sold "o4" 1 "debit_card"; sold "o5" 1 "debit_card"; sold "o6" 1 "debit_card";
    sold "o7" 1 "voucher" ]%string.

(** ** Definitions used in the proofs *)

(** The process with nothing but the table [t], at location 0. *)
Definition canon (t : Frame) : World := mkWorld [t] [] [].

(** The outcome [rw] of a run from [canon t], seen from the world [w]: the
    new frames, figures and elements come after (figures: before) those of
    [w]. *)
Definition relocate {A} (w : World) (rw : (Exn + A) * World) : (Exn + A) * World :=
  (fst rw,
   mkWorld (heap w ++ tl (heap (snd rw))) (figures (snd rw) ++ figures w)
           (page w ++ page (snd rw))).

(** A computation that leaves the frame at [l] as it is. *)
Definition keeps {A} (l : loc) (m : M A) : Prop :=
  forall w, nth_error (heap (snd (m w))) l = nth_error (heap w) l.

(** What the routines put on the page and draw, as functions of the table. *)
Definition kpi_panel (revenue : Q) (average : Z) (orders : nat) : list Element :=
  [ Columns [1; 1; 1]%nat;
    InColumn 0 (Markdown "---"); InColumn 0 (Subheader (Lit "Total Revenue"));
    InColumn 0 (Subheader (Currency revenue "USD" "en_US")); InColumn 0 (Markdown "---");
    InColumn 1 (Markdown "---"); InColumn 1 (Subheader (Lit "Average Order Value"));
    InColumn 1 (Subheader (Int average)); InColumn 1 (Markdown "---");
    InColumn 2 (Markdown "---"); InColumn 2 (Subheader (Lit "Total Orders"));
    InColumn 2 (Subheader (Grouped orders)); InColumn 2 (Markdown "---") ].

Definition demographic_bars (t : Frame) : list Bar :=
  map (fun dc => mkBar (fst (fst dc)) (snd (fst dc)) (snd dc))
      (combine (top_10_cities t)
         ["lightgreen"; "skyblue"; "salmon"; "gold"; "orange"]%string).

Definition demographic_figure (t : Frame) : Figure :=
  mkFigure (30, 26)%nat
    [ BarPlot (demographic_bars t);
      XLabel "" 12; YLabel "" 12;
      TickParams "x" (Some 90%nat) 50; TickParams "y" None 50;
      TightLayout ].

Definition payment_colors : list string :=
  ["lightcoral"; "lightskyblue"; "lightpink"; "lightseagreen"]%string.

Definition payment_wedges (t : Frame) : list Wedge :=
  wedges_from 0 (list_sum (map snd (filtered_payment_type t))) "%1.1f%%" payment_colors
    (filtered_payment_type t).

Definition payment_figure (t : Frame) : Figure :=
  mkFigure (12, 8)%nat
    [ Pie (payment_wedges t) "%1.1f%%" 14;
      PlotTitle "Distribution of Payment Types" 16; Axis "equal" ].

Definition payment_panel (t : Frame) : list Element :=
  [ Columns [1; 2; 2; 2; 2; 1]%nat;
    InColumn 1 (Swatch "lightcoral" "credit_card");
    InColumn 2 (Swatch "lightskyblue" "boleto");
    InColumn 3 (Swatch "lightpink" "voucher");
    InColumn 4 (Swatch "lightseagreen" "debit_card");
    Pyplot (payment_figure t) ].

Definition kept_sizes {K R} (keep : K -> bool) (gs : list (K * list R)) : list (K * nat) :=
  filter (fun pc => keep (fst pc)) (map (fun g => (fst g, List.length (snd g))) gs).

Definition epoch : Timestamp := mkStamp (mkDate 1970 1 1) 0 0 0.

Definition stamp_of (r : Row) : Timestamp :=
  match order_purchase_timestamp r with
  | Stamp t => t
  | Raw _ => epoch
  end.

Definition day_of (r : Row) : Date := date (stamp_of r).

Definition with_date (r : Row) : Row := set_order_purchase_date (day_of r) r.

Definition in_range (s e : Date) (r : Row) : bool :=
  date_leb s (day_of r) && date_leb (day_of r) e.

Definition in_year (y : Z) (r : Row) : bool := year (day_of r) =? y.

Definition chosen (y : Z) (s e : Date) (t : Frame) : Frame :=
  filter (in_range s e) (filter (in_year y) t).

Definition stamp_eqb (a b : Timestamp) : bool :=
  keqb (date a) (date b) && (hour a =? hour b) && (minute a =? minute b)
  && (second a =? second b).

Definition fstring_ok (m d : Z) (suffix : string) (y : Z) : bool :=
  match parse_timestamp (str_int y ++ suffix) with
  | Some t => stamp_eqb t (mkStamp (mkDate y m d) 0 0 0)
  | None => false
  end.

Definition stamp_years : list Z := map Z.of_nat (seq 1678 584).

Definition keys {K R} (gs : list (K * R)) : list K := map fst gs.

Definition below {K} `{KeyCmp K} {R} (k : K) (gs : list (K * R)) : Prop :=
  Forall (fun g => cmp k (fst g) = Lt) gs.

Inductive ordered {K} `{KeyCmp K} {R} : list (K * R) -> Prop :=
| ordered_nil : ordered []
| ordered_cons k rs gs : below k gs -> ordered gs -> ordered ((k, rs) :: gs).

Definition by_count {A} (a b : A * nat) : Prop := (snd b <= snd a)%nat.

(** ** Definitions used in the further properties *)

(** Two records that agree on every column but the two timestamp columns
    (and the date column the orders-per-day routine adds to its copy). *)
Definition same_sale (r r' : Row) : Prop :=
  order_id r' = order_id r /\
  customer_unique_id r' = customer_unique_id r /\
  customer_city r' = customer_city r /\
  total_price r' = total_price r /\
  payment_type r' = payment_type r.

(** Two groups with the same key and, row by row, alike rows. *)
Definition groups_alike {K R} (alike : R -> R -> Prop) (g g' : K * list R) : Prop :=
  fst g' = fst g /\ Forall2 alike (snd g) (snd g').

(** [w'] is [w] with frames and elements added at the end and figures pushed
    on top: nothing of [w] is removed or rewritten. *)
Definition extends (w w' : World) : Prop :=
  exists frames figs els,
    heap w' = heap w ++ frames /\
    figures w' = figs ++ figures w /\
    page w' = page w ++ els.

Definition grows {A} (m : M A) : Prop := forall w, extends w (snd (m w)).

(** A computation that leaves the figure stack as it is. *)
Definition draws_nothing {A} (m : M A) : Prop :=
  forall w, figures (snd (m w)) = figures w.

(** The two columns of [main], as functions of what the two routines show. *)
Definition lower_panels (demographic payment : list Element) : list Element :=
  Columns [1; 1]%nat
  :: InColumn 0 (Subheader (Lit "Customer Demographic"))
  :: map (InColumn 0) demographic
  ++ InColumn 1 (Subheader (Lit "Payment Method"))
  :: map (InColumn 1) payment.

(** Purchased in year [y]. *)
Definition purchased_in (y : Z) (r : Row) : bool :=
  match purchased r with
  | Some d => year d =? y
  | None => false
  end.

(** A computation on the table at [d] whose outcome and additions are the
    same in every state that holds the table [t], wherever it holds it. *)
Definition table_local {A} (t : Frame) (m : loc -> M A) : Prop :=
  exists r frames figs els,
    forall d w, nth_error (heap w) d = Some t ->
      m d w = (r, mkWorld (heap w ++ frames) (figs ++ figures w) (page w ++ els)).

(** * Properties *)

(** ** The key orders *)

Lemma string_cmp_trans (a b c : string) :
  String.compare a b = Lt -> String.compare b c = Lt -> String.compare a c = Lt.
Proof.
  intros Hab Hbc.
  apply String_as_OT.cmp_lt. apply String_as_OT.cmp_lt in Hab, Hbc.
  eapply String_as_OT.lt_trans; eassumption.
Qed.

#[export] Instance KeyOrd_string : KeyOrd string.
Proof.
  split.
  - exact String_as_OT.cmp_eq.
  - exact String_as_OT.cmp_antisym.
  - exact string_cmp_trans.
Qed.

Lemma date_compare_eq (a b : Date) : date_compare a b = Eq <-> a = b.
Proof.
  destruct a as [y1 m1 d1], b as [y2 m2 d2]. unfold date_compare. simpl.
  destruct (Z.compare_spec y1 y2); destruct (Z.compare_spec m1 m2);
    destruct (Z.compare_spec d1 d2); split; intros E;
    try discriminate; try (inversion E; lia); subst; reflexivity.
Qed.

Lemma date_compare_antisym (a b : Date) :
  date_compare a b = CompOpp (date_compare b a).
Proof.
  destruct a as [y1 m1 d1], b as [y2 m2 d2]. unfold date_compare. simpl.
  rewrite (Z.compare_antisym y2 y1), (Z.compare_antisym m2 m1),
    (Z.compare_antisym d2 d1).
  destruct (y2 ?= y1); simpl; try reflexivity.
  destruct (m2 ?= m1); simpl; reflexivity.
Qed.

Lemma date_compare_trans (a b c : Date) :
  date_compare a b = Lt -> date_compare b c = Lt -> date_compare a c = Lt.
Proof.
  destruct a as [y1 m1 d1], b as [y2 m2 d2], c as [y3 m3 d3].
  unfold date_compare. simpl.
  destruct (Z.compare_spec y1 y2); destruct (Z.compare_spec m1 m2);
    destruct (Z.compare_spec d1 d2); try discriminate;
    destruct (Z.compare_spec y2 y3); destruct (Z.compare_spec m2 m3);
    destruct (Z.compare_spec d2 d3); try discriminate; intros _ _;
    destruct (Z.compare_spec y1 y3); try lia; try reflexivity;
    destruct (Z.compare_spec m1 m3); try lia; try reflexivity;
    destruct (Z.compare_spec d1 d3); try lia; reflexivity.
Qed.

#[export] Instance KeyOrd_Date : KeyOrd Date.
Proof.
  split.
  - exact date_compare_eq.
  - exact date_compare_antisym.
  - exact date_compare_trans.
Qed.

Section KeyFacts.
Context {K : Type} `{KeyOrd K}.

Lemma cmp_refl (a : K) : cmp a a = Eq.
Proof. apply cmp_eq. reflexivity. Qed.

Lemma keqb_eq (a b : K) : keqb a b = true <-> a = b.
Proof.
  unfold keqb. rewrite <- cmp_eq. destruct (cmp a b); split; congruence.
Qed.

Lemma keqb_refl (a : K) : keqb a a = true.
Proof. apply keqb_eq. reflexivity. Qed.

Lemma keqb_sym (a b : K) : keqb a b = keqb b a.
Proof.
  unfold keqb. rewrite (cmp_antisym a b). destruct (cmp b a); reflexivity.
Qed.

Lemma keqb_neq (a b : K) : keqb a b = false <-> a <> b.
Proof.
  rewrite <- keqb_eq. destruct (keqb a b); split; congruence.
Qed.

Lemma cmp_gt_lt (a b : K) : cmp a b = Gt -> cmp b a = Lt.
Proof. intros E. rewrite cmp_antisym, E. reflexivity. Qed.

End KeyFacts.

(** ** Grouping *)

Section GroupFacts.
Context {K : Type} `{KeyOrd K} {R : Type}.
Variable key : R -> K.

Lemma below_trans k k' (gs : list (K * list R)) : cmp k k' = Lt -> below k' gs -> below k gs.
Proof.
  intros E B. unfold below in *. rewrite Forall_forall in *.
  intros g Hg. eapply cmp_trans; [exact E | auto].
Qed.

Lemma below_insert k r gs :
  cmp k (key r) = Lt -> below k gs -> below k (insert_group key r gs).
Proof.
  intros E B. induction gs as [|[k' rs] gs IH]; simpl.
  - constructor; [exact E | constructor].
  - inversion B; subst. simpl in *.
    destruct (cmp (key r) k') eqn:C.
    + constructor; assumption.
    + constructor; [exact E | constructor; assumption].
    + constructor; [assumption | apply IH; assumption].
Qed.

Lemma ordered_insert r gs : ordered gs -> ordered (insert_group key r gs).
Proof.
  induction 1 as [|k rs gs B O IH]; simpl.
  - constructor; constructor.
  - destruct (cmp (key r) k) eqn:C.
    + constructor; assumption.
    + constructor.
      * constructor; [exact C | eapply below_trans; eassumption].
      * constructor; assumption.
    + constructor; [|exact IH].
      apply below_insert; [apply cmp_gt_lt; exact C | exact B].
Qed.

Lemma groupby_ordered rows : ordered (groupby key rows).
Proof.
  induction rows; simpl; [constructor | apply ordered_insert; assumption].
Qed.

Lemma below_at_key k (gs : list (K * list R)) : below k gs -> at_key k gs = None.
Proof.
  induction 1 as [|[k' rs] gs E _ IH]; simpl; [reflexivity|].
  simpl in E. unfold keqb. rewrite E. exact IH.
Qed.

(** Adding a row changes the group of its key, and no other. *)
Lemma at_key_insert k r gs :
  ordered gs ->
  at_key k (insert_group key r gs) =
    if keqb k (key r)
    then Some (r :: match at_key k gs with Some rs => rs | None => [] end)
    else at_key k gs.
Proof.
  induction 1 as [|k' rs gs B O IH]; simpl.
  - destruct (keqb k (key r)); reflexivity.
  - destruct (cmp (key r) k') eqn:C; simpl.
    + apply cmp_eq in C. subst k'.
      destruct (keqb k (key r)); reflexivity.
    + destruct (keqb k (key r)) eqn:E; [|reflexivity].
      apply keqb_eq in E. subst k.
      unfold keqb at 1. rewrite C.
      rewrite (below_at_key _ _ (below_trans _ _ _ C B)). reflexivity.
    + rewrite IH. destruct (keqb k (key r)) eqn:E; [|reflexivity].
      apply keqb_eq in E. subst k.
      unfold keqb. rewrite C. reflexivity.
Qed.

(** The group of a key holds the rows of that key, in table order. *)
Lemma at_key_groupby k rows :
  at_key k (groupby key rows) =
    match filter (fun r => keqb (key r) k) rows with
    | [] => None
    | rs => Some rs
    end.
Proof.
  induction rows as [|r rows IH]; simpl; [reflexivity|].
  rewrite at_key_insert by apply groupby_ordered.
  rewrite IH, (keqb_sym (key r) k).
  destruct (keqb k (key r)); [|reflexivity].
  destruct (filter _ rows); reflexivity.
Qed.

Lemma ordered_in_at_key k rs (gs : list (K * list R)) :
  ordered gs -> In (k, rs) gs -> at_key k gs = Some rs.
Proof.
  induction 1 as [|k' rs' gs B O IH]; simpl; [tauto|].
  intros [E | I].
  - inversion E; subst. rewrite keqb_refl. reflexivity.
  - destruct (keqb k k') eqn:E; [|auto].
    apply keqb_eq in E. subst k'.
    unfold below in B. rewrite Forall_forall in B.
    specialize (B _ I). simpl in B. rewrite cmp_refl in B. discriminate.
Qed.

(** A group is the rows of its key, and is not empty. *)
Lemma groupby_group k rs rows :
  In (k, rs) (groupby key rows) ->
  rs = filter (fun r => keqb (key r) k) rows /\ rs <> [].
Proof.
  intros I. apply ordered_in_at_key in I; [|apply groupby_ordered].
  rewrite at_key_groupby in I.
  destruct (filter _ rows) eqn:F; [discriminate|].
  inversion I; subst. split; [reflexivity | discriminate].
Qed.

Lemma ordered_NoDup (gs : list (K * list R)) : ordered gs -> NoDup (keys gs).
Proof.
  induction 1 as [|k rs gs B O IH]; simpl; constructor; [|exact IH].
  intros I. apply in_map_iff in I. destruct I as [[k' rs'] [E I]].
  simpl in E. subst k'. unfold below in B. rewrite Forall_forall in B.
  specialize (B _ I). simpl in B. rewrite cmp_refl in B. discriminate.
Qed.

Lemma keys_insert k r gs :
  In k (keys (insert_group key r gs)) <-> k = key r \/ In k (keys gs).
Proof.
  induction gs as [|[k' rs] gs IH]; simpl.
  - intuition.
  - destruct (cmp (key r) k') eqn:C; simpl.
    + apply cmp_eq in C. subst k'. intuition.
    + intuition.
    + unfold keys in IH. rewrite IH. intuition.
Qed.

(** The keys of the groups are the keys that occur, each once. *)
Lemma keys_groupby k rows :
  In k (keys (groupby key rows)) <-> In k (map key rows).
Proof.
  induction rows as [|r rows IH]; simpl; [tauto|].
  rewrite keys_insert, IH. intuition.
Qed.

Lemma groupby_NoDup rows : NoDup (keys (groupby key rows)).
Proof. apply ordered_NoDup, groupby_ordered. Qed.

Lemma groupby_length (dec : forall a b : K, {a = b} + {a <> b}) rows :
  List.length (groupby key rows) = List.length (nodup dec (map key rows)).
Proof.
  rewrite <- (length_map fst (groupby key rows)).
  apply Permutation_length, NoDup_Permutation.
  - apply groupby_NoDup.
  - apply NoDup_nodup.
  - intros k. rewrite nodup_In. apply keys_groupby.
Qed.

(** Every row lands in exactly one group: sums over the groups add up. *)
Lemma insert_group_sum (f : R -> Q) r gs :
  (exact_sum (map (fun g => exact_sum (map f (snd g))) (insert_group key r gs))
   == f r + exact_sum (map (fun g => exact_sum (map f (snd g))) gs))%Q.
Proof.
  induction gs as [|[k rs] gs IH]; simpl.
  - ring.
  - destruct (cmp (key r) k); simpl.
    + ring.
    + ring.
    + rewrite IH. ring.
Qed.

Lemma groupby_sum (f : R -> Q) rows :
  (exact_sum (map (fun g => exact_sum (map f (snd g))) (groupby key rows))
   == exact_sum (map f rows))%Q.
Proof.
  induction rows as [|r rows IH]; simpl; [reflexivity|].
  rewrite insert_group_sum, IH. reflexivity.
Qed.

End GroupFacts.

Lemma ordered_sorted {K} `{KeyOrd K} {R} (gs : list (K * R)) :
  ordered gs -> StronglySorted (fun a b => cmp a b = Lt) (keys gs).
Proof.
  induction 1 as [|k rs gs B O IH]; cbn; constructor; [exact IH|].
  unfold below in B. rewrite Forall_forall in *. intros k' I.
  apply in_map_iff in I. destruct I as [g [<- I]]. apply B, I.
Qed.

(** ** Running the routines

    A routine is run one [bind] at a time: [bind_run] and [bind_fail] move
    past a step whose outcome is known, and the heap lemmas resolve the
    reads of frames allocated on the way.  The locality lemmas say that a
    routine run in any world that holds the table [t] behaves as in the
    world [canon t], up to where the new frames, figures and elements go. *)

Lemma world_eta w : mkWorld (heap w) (figures w) (page w) = w.
Proof. destruct w; reflexivity. Qed.

Lemma nth_error_app_len {A} (h : list A) x : nth_error (h ++ [x]) (List.length h) = Some x.
Proof. induction h; simpl; auto. Qed.

Lemma update_app_len {A} (h : list A) x y : update (h ++ [x]) (List.length h) y = h ++ [y].
Proof. induction h; simpl; [reflexivity | congruence]. Qed.

Lemma nth_error_app_old {A} (h : list A) x l v :
  nth_error h l = Some v -> nth_error (h ++ x) l = Some v.
Proof.
  intros E. rewrite nth_error_app1; [exact E|]. apply nth_error_Some. congruence.
Qed.

Lemma bind_run {A B} (m : M A) (k : A -> M B) w a w' :
  m w = (inr a, w') -> bind m k w = k a w'.
Proof. unfold bind. intros ->. reflexivity. Qed.

Lemma bind_fail {A B} (m : M A) (k : A -> M B) w e w' :
  m w = (inl e, w') -> bind m k w = (inl e, w').
Proof. unfold bind. intros ->. reflexivity. Qed.

Lemma bind_assoc {A B C} (m : M A) (k1 : A -> M B) (k2 : B -> M C) w :
  bind (bind m k1) k2 w = bind m (fun a => bind (k1 a) k2) w.
Proof. unfold bind. destruct (m w) as [[e|a] w']; reflexivity. Qed.

Lemma load_run l w df : nth_error (heap w) l = Some df -> load l w = (inr df, w).
Proof. unfold load. intros ->. reflexivity. Qed.

Ltac lookup :=
  cbn [heap];
  first [ eassumption
        | apply nth_error_app_len
        | apply nth_error_app_old; lookup
        | reflexivity ].

Ltac tidy :=
  cbv beta iota zeta; cbn [heap figures page]; rewrite ?update_app_len.

(** One step of the computation [bind m k w] that does not branch. *)
Ltac exec_det m k w :=
  lazymatch m with
  | bind _ _ => rewrite (bind_assoc _ _ k w)
  | load ?l => erewrite (bind_run (load l) k w) by (apply load_run; lookup)
  | raise _ => rewrite (bind_fail m k w _ w) by reflexivity
  | match _ with _ => _ end => fail
  | if _ then _ else _ => fail
  | _ => erewrite (bind_run m k w) by reflexivity
  end; tidy.

Ltac exec_branch m :=
  lazymatch m with
  | match ?x with _ => _ end => destruct x eqn:?
  | if ?c then _ else _ => destruct c eqn:?
  end; tidy.

Ltac step :=
  first
    [ lazymatch goal with |- bind ?m ?k ?w = _ => exec_det m k w end
    | lazymatch goal with |- _ = relocate _ (bind ?m ?k ?w) => exec_det m k w end
    | lazymatch goal with |- bind ?m ?k ?w = _ => exec_branch m end
    | lazymatch goal with |- _ = relocate _ (bind ?m ?k ?w) => exec_branch m end ].

Ltac lstep :=
  lazymatch goal with |- bind ?m ?k ?w = _ => exec_det m k w end.

Ltac finish :=
  cbv [relocate kpi_column with_column bind st_pyplot st_bar_chart st_title
       st_subheader st_markdown emit ret raise fst snd];
  cbn [heap figures page tl app map List.length update];
  repeat rewrite <- app_assoc; cbn [app map];
  rewrite ?app_nil_r, ?world_eta; try reflexivity.

Ltac open_routine :=
  cbv [display_dashboard_kpis py_round lift
       display_customer_demographic sns_barplot
       display_payment_distribution plt_pie
       display_orders_per_day_latest_year to_datetime_fstring dt index
       getitem_order_purchase_date getitem_mask setitem st_date_input
       st_columns st_swatch canon]; tidy.

Lemma kpis_local {Fl : Float64} w datas t :
  nth_error (heap w) datas = Some t ->
  display_dashboard_kpis datas w = relocate w (display_dashboard_kpis 0%nat (canon t)).
Proof.
  intros L. open_routine. repeat step. all: finish.
Qed.

Lemma demographic_local w datas t :
  nth_error (heap w) datas = Some t ->
  display_customer_demographic datas w = relocate w (display_customer_demographic 0%nat (canon t)).
Proof.
  intros L. open_routine. repeat step. all: finish.
Qed.

Lemma payment_local w datas t :
  nth_error (heap w) datas = Some t ->
  display_payment_distribution datas w = relocate w (display_payment_distribution 0%nat (canon t)).
Proof.
  intros L. open_routine. repeat step. all: finish.
Qed.

Lemma orders_local w datas t picked :
  nth_error (heap w) datas = Some t ->
  display_orders_per_day_latest_year datas picked w
  = relocate w (display_orders_per_day_latest_year 0%nat picked (canon t)).
Proof.
  intros L. open_routine. repeat step. all: finish.
Qed.

(** ** Loading *)

Lemma parse_timestamp_valid s t : parse_timestamp s = Some t -> valid_stamp t = true.
Proof.
  unfold parse_timestamp.
  destruct (Nat.eqb (String.length s) 10).
  - destruct (parse_date s) as [d|]; [|discriminate].
    destruct (valid_stamp (mkStamp d 0 0 0)) eqn:V; [|discriminate].
    intros [= <-]. exact V.
  - destruct (Nat.eqb (String.length s) 19); [|discriminate].
    destruct (parse_date s) as [d|]; [|discriminate].
    destruct (parse_time s) as [[[h m] x]|]; [|discriminate].
    destruct (valid_stamp (mkStamp d h m x)) eqn:V; [|discriminate].
    intros [= <-]. exact V.
Qed.

Lemma all_some_length {A} (l : list (option A)) r :
  all_some l = Some r -> List.length r = List.length l.
Proof.
  revert r. induction l as [|[a|] l IH]; cbn; intros r E; try discriminate.
  - inversion E. reflexivity.
  - destruct (all_some l) as [r'|]; [|discriminate]. inversion E; subst.
    cbn. f_equal. apply IH. reflexivity.
Qed.

(** The purchase column after [to_datetime]: every cell a timestamp. *)
Lemma converted_parsed (file : Frame) cells :
  as_read file = true ->
  all_some (map to_datetime_cell (map order_purchase_timestamp file)) = Some cells ->
  parsed (map (fun cr => set_order_purchase_timestamp (fst cr) (snd cr))
              (combine cells file)) = true.
Proof.
  unfold parsed, as_read. revert cells.
  induction file as [|r file IH]; intros cells R E.
  - destruct cells; reflexivity.
  - cbn [map all_some] in E. cbn [forallb] in R. apply andb_true_iff in R.
    destruct R as [Rr R].
    destruct (order_purchase_timestamp r) as [s|t] eqn:C; [|discriminate].
    cbn [to_datetime_cell] in E.
    destruct (parse_timestamp s) as [t|] eqn:PT; [|discriminate].
    destruct (all_some _) as [cells'|] eqn:E'; [|discriminate]. inversion E; subst.
    cbn [combine map forallb fst snd set_order_purchase_timestamp order_purchase_timestamp].
    rewrite (parse_timestamp_valid s t PT). cbn [andb]. apply IH; [exact R | reflexivity].
Qed.

Lemma parsed_set_delivered cells t :
  parsed t = true ->
  parsed (map (fun cr => set_order_delivered_customer_date (fst cr) (snd cr))
              (combine cells t)) = true.
Proof.
  unfold parsed. revert cells. induction t as [|r t IH]; intros [|c cells] P;
    try reflexivity.
  cbn [forallb] in P. apply andb_true_iff in P. destruct P as [Pr P].
  cbn [combine map forallb fst snd set_order_delivered_customer_date order_purchase_timestamp].
  rewrite Pr. cbn [andb]. apply IH, P.
Qed.

Lemma converted_length (file : Frame) cells :
  all_some (map to_datetime_cell (map order_purchase_timestamp file)) = Some cells ->
  List.length cells = List.length file.
Proof. intros E. rewrite (all_some_length _ _ E), !length_map. reflexivity. Qed.

Lemma module_init_stops file w :
  all_some (map to_datetime_cell (map order_purchase_timestamp file)) = None ->
  module_init file w
  = (inl ValueError, mkWorld (heap w ++ [file]) (figures w) (page w)).
Proof.
  intros Ep. unfold module_init, pd_read_csv, pd_to_datetime, setitem, lift.
  repeat lstep. rewrite Ep. tidy. repeat lstep. reflexivity.
Qed.

Lemma module_init_run file w p :
  all_some (map to_datetime_cell (map order_purchase_timestamp file)) = Some p ->
  let t1 := map (fun cr => set_order_purchase_timestamp (fst cr) (snd cr))
                (combine p file) in
  module_init file w
  = match all_some (map to_datetime_cell (map order_delivered_customer_date t1)) with
    | Some d =>
        (inr (List.length (heap w)),
         mkWorld (heap w ++ [map (fun cr => set_order_delivered_customer_date (fst cr) (snd cr))
                                 (combine d t1)])
                 (figures w) (page w))
    | None => (inl ValueError, mkWorld (heap w ++ [t1]) (figures w) (page w))
    end.
Proof.
  intros Ep t1. unfold module_init, pd_read_csv, pd_to_datetime, setitem, lift.
  repeat lstep. rewrite Ep. tidy. repeat lstep.
  rewrite (converted_length file p Ep), Nat.eqb_refl. tidy. repeat lstep.
  fold t1.
  destruct (all_some (map to_datetime_cell (map order_delivered_customer_date t1)))
    as [d|] eqn:Ed; tidy; repeat lstep; [|reflexivity].
  rewrite (all_some_length _ _ Ed), !length_map, Nat.eqb_refl. tidy. repeat lstep.
  reflexivity.
Qed.

(** After the module has loaded a file, [datas] refers to a frame whose
    purchase column holds timestamps. *)
Lemma loaded_table_is_parsed file w datas w' :
  as_read file = true ->
  module_init file w = (inr datas, w') ->
  exists t, nth_error (heap w') datas = Some t /\ parsed t = true.
Proof.
  intros R E.
  destruct (all_some (map to_datetime_cell (map order_purchase_timestamp file)))
    as [p|] eqn:Ep.
  - rewrite (module_init_run file w p Ep) in E. cbv zeta in E.
    pose proof (converted_parsed file p R Ep) as P.
    destruct (all_some _) as [d|] in E; [|discriminate].
    inversion E; subst. cbn [heap]. eexists.
    split; [apply nth_error_app_len | apply parsed_set_delivered, P].
  - pose proof (module_init_stops file w Ep) as F. rewrite E in F. discriminate.
Qed.

(** ** The orders-per-day routine, step by step *)

Lemma parsed_cons r t : parsed (r :: t) = true ->
  (exists s, order_purchase_timestamp r = Stamp s /\ valid_stamp s = true) /\ parsed t = true.
Proof.
  unfold parsed. simpl. intros E. apply andb_true_iff in E. destruct E as [E1 E2].
  split; [|exact E2]. destruct (order_purchase_timestamp r); [discriminate|eauto].
Qed.

Lemma dt_parsed {A} (f : Timestamp -> A) t :
  parsed t = true ->
  all_some (map (fun c => match c with Stamp s => Some (f s) | Raw _ => None end)
                (map order_purchase_timestamp t))
  = Some (map (fun r => f (stamp_of r)) t).
Proof.
  induction t as [|r t IH]; simpl; [reflexivity|].
  intros P. apply parsed_cons in P. destruct P as [[s [E V]] P].
  unfold stamp_of at 1. rewrite E, (IH P). reflexivity.
Qed.

Lemma select_map {R} (p : R -> bool) rows : select (map p rows) rows = filter p rows.
Proof.
  induction rows as [|r rows IH]; simpl; [reflexivity|].
  rewrite IH. reflexivity.
Qed.

Lemma select_map_map {R B} (g : R -> B) (p : B -> bool) rows :
  select (map p (map g rows)) rows = filter (fun r => p (g r)) rows.
Proof. rewrite map_map. apply select_map. Qed.

Lemma mask_and_map {B} (p q : B -> bool) l :
  mask_and (map p l) (map q l) = map (fun x => p x && q x) l.
Proof. induction l; simpl; congruence. Qed.

Lemma Series_max_spec l m :
  Series_max l = Some m -> In m l /\ (forall x, In x l -> x <= m).
Proof.
  destruct l as [|x l]; simpl; [discriminate|].
  intros [= <-]. induction l as [|z l IH]; simpl.
  - split; [auto | intros ? [->|[]]; lia].
  - destruct IH as [I B]. split.
    + destruct (Z.max_spec z (fold_right Z.max x l)) as [[_ ->]|[_ ->]]; tauto.
    + intros v [->|[->|I']].
      * specialize (B v (or_introl eq_refl)). lia.
      * lia.
      * specialize (B v (or_intror I')). lia.
Qed.

Lemma Series_max_some l : l <> [] -> exists m, Series_max l = Some m.
Proof. destruct l; [congruence | simpl; eauto]. Qed.

(** The f-strings of the routine parse, for every year a timestamp has. *)
Lemma stamp_eqb_eq a b : stamp_eqb a b = true -> a = b.
Proof.
  destruct a as [da ha ma sa], b as [db hb mb sb]. unfold stamp_eqb. simpl.
  rewrite !andb_true_iff, keqb_eq, !Z.eqb_eq. intros [[[-> ->] ->] ->]. reflexivity.
Qed.

Lemma fstring_years m d suffix :
  forallb (fstring_ok m d suffix) stamp_years = true ->
  forall y, 1678 <= y <= 2261 ->
  parse_timestamp (str_int y ++ suffix) = Some (mkStamp (mkDate y m d) 0 0 0).
Proof.
  intros F y B. rewrite forallb_forall in F.
  assert (I : In y stamp_years).
  { unfold stamp_years. apply in_map_iff. exists (Z.to_nat y). split; [lia|].
    apply in_seq. lia. }
  specialize (F y I). unfold fstring_ok in F.
  destruct (parse_timestamp (str_int y ++ suffix)); [|discriminate].
  apply stamp_eqb_eq in F. congruence.
Qed.

Lemma first_day_parses y : 1678 <= y <= 2261 ->
  parse_timestamp (str_int y ++ "-01-01") = Some (mkStamp (mkDate y 1 1) 0 0 0).
Proof. apply fstring_years. vm_compute. reflexivity. Qed.

Lemma last_day_parses y : 1678 <= y <= 2261 ->
  parse_timestamp (str_int y ++ "-12-31") = Some (mkStamp (mkDate y 12 31) 0 0 0).
Proof. apply fstring_years. vm_compute. reflexivity. Qed.

Lemma parsed_filter p t : parsed t = true -> parsed (filter p t) = true.
Proof.
  unfold parsed. rewrite !forallb_forall. intros P r I.
  apply filter_In in I. apply P, I.
Qed.

Lemma combine_map_self {A B} (f : A -> B) l :
  combine (map f l) l = map (fun x => (f x, x)) l.
Proof. induction l; simpl; congruence. Qed.

Lemma dates_of_with_date l :
  all_some (map order_purchase_date (map with_date l)) = Some (map day_of l).
Proof.
  induction l as [|r l IH]; simpl; [reflexivity|].
  rewrite IH. reflexivity.
Qed.

Lemma select_map_both {R B S} (k : R -> B) (g : R -> S) (p : B -> bool) l :
  select (map p (map k l)) (map g l) = map g (filter (fun r => p (k r)) l).
Proof.
  induction l as [|r l IH]; simpl; [reflexivity|].
  rewrite IH. destruct (p (k r)); reflexivity.
Qed.

Lemma setitem_dates l :
  map (fun cr : Date * Row => set_order_purchase_date (fst cr) (snd cr))
      (combine (map day_of l) l) = map with_date l.
Proof. rewrite combine_map_self, map_map. reflexivity. Qed.

Lemma parsed_purchased t r :
  parsed t = true -> In r t -> purchased r = Some (day_of r).
Proof.
  unfold parsed. rewrite forallb_forall. intros P I. specialize (P r I).
  unfold purchased, day_of, stamp_of.
  destruct (order_purchase_timestamp r); [discriminate | reflexivity].
Qed.

Lemma parsed_year_bounds t r :
  parsed t = true -> In r t -> 1678 <= year (day_of r) <= 2261.
Proof.
  unfold parsed. rewrite forallb_forall. intros P I. specialize (P r I).
  unfold day_of, stamp_of. destruct (order_purchase_timestamp r); [discriminate|].
  unfold valid_stamp in P. rewrite !andb_true_iff in P. lia.
Qed.

(** The run up to the use of the selection. *)
Ltac run_to_selection t y L P Y :=
  let B := fresh "B" in
  let PF := fresh "PF" in
  assert (B : 1678 <= y <= 2261)
    by (apply Series_max_spec in Y; destruct Y as [?I _];
        apply in_map_iff in I; destruct I as [?r [<- ?I]];
        eapply parsed_year_bounds; eassumption);
  assert (PF : parsed (filter (in_year y) t) = true) by (apply parsed_filter, P);
  open_routine;
  lstep; rewrite (dt_parsed _ t P); tidy; lstep;
  unfold day_of in Y; rewrite Y;
  lstep; rewrite (dt_parsed _ t P); tidy; repeat lstep;
  rewrite !length_map, Nat.eqb_refl; tidy; repeat lstep;
  rewrite (first_day_parses y B); tidy; repeat lstep;
  rewrite (last_day_parses y B); tidy; repeat lstep;
  rewrite select_map_map;
  change (fun r : Row => eq_year (Some y) (year (date (stamp_of r)))) with (in_year y);
  rewrite (dt_parsed _ _ PF); tidy; repeat lstep;
  rewrite length_map, Nat.eqb_refl; tidy; repeat lstep;
  change (fun r : Row => date (stamp_of r)) with day_of;
  rewrite setitem_dates;
  repeat first [ lstep | progress (rewrite ?dates_of_with_date; cbn [nth_error]; tidy) ].

Lemma orders_run_none w datas t y :
  nth_error (heap w) datas = Some t ->
  parsed t = true ->
  Series_max (map (fun r => year (day_of r)) t) = Some y ->
  display_orders_per_day_latest_year datas [] w
  = (inl IndexError,
     mkWorld (heap w ++ [map with_date (filter (in_year y) t)]) (figures w)
             (page w ++ [selector y])).
Proof.
  intros L P Y. run_to_selection t y L P Y. finish.
Qed.

Lemma orders_run_one w datas t d y :
  nth_error (heap w) datas = Some t ->
  parsed t = true ->
  Series_max (map (fun r => year (day_of r)) t) = Some y ->
  display_orders_per_day_latest_year datas [d] w
  = (inl IndexError,
     mkWorld (heap w ++ [map with_date (filter (in_year y) t)]) (figures w)
             (page w ++ [selector y])).
Proof.
  intros L P Y. run_to_selection t y L P Y. finish.
Qed.

Lemma orders_run w datas t s e rest y :
  nth_error (heap w) datas = Some t ->
  parsed t = true ->
  Series_max (map (fun r => year (day_of r)) t) = Some y ->
  display_orders_per_day_latest_year datas (s :: e :: rest) w
  = (inr tt,
     mkWorld (heap w ++ [map with_date (filter (in_year y) t);
                         map with_date (chosen y s e t)])
             (figures w)
             (page w ++
              [selector y;
               Title (Fstr "Number of Orders per Day in " y);
               BarChart (size_by (map day_of (chosen y s e t))
                                 (map with_date (chosen y s e t))) 400])).
Proof.
  intros L P Y. run_to_selection t y L P Y.
  rewrite mask_and_map, !length_map, Nat.eqb_refl. tidy. repeat lstep.
  rewrite (select_map_both day_of with_date (fun d => date_leb s d && date_leb d e)).
  change (filter (fun r : Row => date_leb s (day_of r) && date_leb (day_of r) e)
            (filter (in_year y) t)) with (chosen y s e t).
  rewrite dates_of_with_date. tidy. repeat lstep.
  finish.
Qed.

(** ** Sums and counts by key *)

Lemma round_half_even_comp (p q : Q) :
  (p == q)%Q -> round_half_even p = round_half_even q.
Proof.
  intros E. unfold round_half_even.
  rewrite (Qfloor_comp _ _ E).
  assert (C : (p - inject_Z (Qfloor q) ?= 1 # 2)%Q = (q - inject_Z (Qfloor q) ?= 1 # 2)%Q).
  { apply Qcompare_comp; [|reflexivity]. rewrite E. reflexivity. }
  rewrite C. reflexivity.
Qed.

Section ByKey.
Context {R K : Type}.
Variable key : R -> K.
Variable eqb : K -> K -> bool.
Hypothesis eqb_eq : forall a b, eqb a b = true <-> a = b.

(** [x] counted at the one key of [ks] that equals [k]. *)
Lemma indicator_sum (x : Q) k ks :
  NoDup ks -> In k ks ->
  (exact_sum (map (fun k' => if eqb k k' then x else 0%Q) ks) == x)%Q.
Proof.
  induction 1 as [|k0 ks N _ IH]; simpl; [tauto|].
  intros [-> | I].
  - rewrite (proj2 (eqb_eq k k) eq_refl).
    assert (Z : (exact_sum (map (fun k' => if eqb k k' then x else 0%Q) ks) == 0)%Q).
    { clear IH. induction ks as [|k1 ks IH]; simpl; [reflexivity|].
      destruct (eqb k k1) eqn:E.
      - apply eqb_eq in E. subst. exfalso. apply N. left. reflexivity.
      - rewrite IH; [ring|]. intros I. apply N. right. exact I. }
    rewrite Z. ring.
  - destruct (eqb k k0) eqn:E.
    + apply eqb_eq in E. subst. contradiction.
    + rewrite (IH I). ring.
Qed.

Lemma exact_sum_plus {A} (f g : A -> Q) l :
  (exact_sum (map (fun a => f a + g a) l)
   == exact_sum (map f l) + exact_sum (map g l))%Q.
Proof.
  induction l as [|a l IH]; simpl; [ring|]. rewrite IH. ring.
Qed.

Lemma exact_sum_ext {A} (f g : A -> Q) l :
  (forall a, In a l -> (f a == g a)%Q) ->
  (exact_sum (map f l) == exact_sum (map g l))%Q.
Proof.
  induction l as [|a l IH]; simpl; intros E; [reflexivity|].
  rewrite (E a (or_introl eq_refl)), IH; [reflexivity|].
  intros b I. apply E. right. exact I.
Qed.

(** A sum over the rows is the sum, over the distinct keys, of the sums over
    the rows of each key. *)
Lemma sum_by_key (f : R -> Q) ks rows :
  NoDup ks -> (forall r, In r rows -> In (key r) ks) ->
  (exact_sum (map (fun k => exact_sum (map f (filter (fun r => eqb (key r) k) rows))) ks)
   == exact_sum (map f rows))%Q.
Proof.
  intros N. induction rows as [|r rows IH]; intros C.
  - cbn [filter map exact_sum fold_right]. clear N C.
    induction ks as [|k ks IHk]; cbn [map exact_sum fold_right]; [reflexivity|].
    fold (exact_sum (map (fun _ : K => 0%Q) ks)). rewrite IHk. ring.
  - rewrite (exact_sum_ext _
      (fun k => (if eqb (key r) k then f r else 0)
                + exact_sum (map f (filter (fun r => eqb (key r) k) rows)))%Q).
    + rewrite exact_sum_plus, IH, indicator_sum.
      * reflexivity.
      * exact N.
      * apply C. left. reflexivity.
      * intros r' I. apply C. right. exact I.
    + intros k _. simpl. destruct (eqb (key r) k); simpl; ring.
Qed.

Lemma indicator_count (n : nat) k ks :
  NoDup ks -> In k ks ->
  list_sum (map (fun k' => if eqb k k' then n else O) ks) = n.
Proof.
  induction 1 as [|k0 ks N _ IH]; simpl; [tauto|].
  intros [-> | I].
  - rewrite (proj2 (eqb_eq k k) eq_refl).
    assert (Z : list_sum (map (fun k' => if eqb k k' then n else O) ks) = O).
    { clear IH. induction ks as [|k1 ks IH]; simpl; [reflexivity|].
      destruct (eqb k k1) eqn:E.
      - apply eqb_eq in E. subst. exfalso. apply N. left. reflexivity.
      - rewrite IH; [reflexivity|]. intros I. apply N. right. exact I. }
    rewrite Z. lia.
  - destruct (eqb k k0) eqn:E.
    + apply eqb_eq in E. subst. contradiction.
    + rewrite (IH I). reflexivity.
Qed.

(** The same for counts. *)
Lemma count_by_key (p : R -> bool) ks rows :
  NoDup ks -> (forall r, In r rows -> In (key r) ks) ->
  list_sum (map (fun k => count_if (fun r => eqb (key r) k && p r) rows) ks)
  = count_if p rows.
Proof.
  intros N. unfold count_if. induction rows as [|r rows IH]; intros C.
  - clear N C. induction ks as [|k ks IHk]; simpl; auto.
  - assert (E : forall k,
        List.length (filter (fun r => eqb (key r) k && p r) (r :: rows))
        = ((if eqb (key r) k then (if p r then 1 else 0) else 0)
           + List.length (filter (fun r => eqb (key r) k && p r) rows))%nat).
    { intros k. simpl. destruct (eqb (key r) k), (p r); reflexivity. }
    rewrite (map_ext _ _ E).
    assert (S : forall (f g : K -> nat) l,
        list_sum (map (fun k => (f k + g k)%nat) l)
        = (list_sum (map f l) + list_sum (map g l))%nat).
    { intros f g l. induction l; simpl; lia. }
    rewrite S, IH, indicator_count.
    + simpl. destruct (p r); reflexivity.
    + exact N.
    + apply C. left. reflexivity.
    + intros r' I. apply C. right. exact I.
Qed.
End ByKey.

Lemma keqb_string (a b : string) : keqb a b = String.eqb a b.
Proof.
  destruct (String.eqb_spec a b) as [->|N].
  - apply keqb_refl.
  - apply keqb_neq. exact N.
Qed.

(** ** The KPIs *)

Lemma order_totals_length {Fl : Float64} t :
  List.length (order_totals t) = number_of_orders t.
Proof.
  unfold order_totals, number_of_orders, nunique. rewrite length_map.
  apply groupby_length.
Qed.

Lemma order_totals_nonempty {Fl : Float64} t : t <> [] -> map snd (order_totals t) <> [].
Proof.
  intros N E. destruct t as [|r t]; [congruence|].
  apply map_eq_nil in E. unfold order_totals in E. apply map_eq_nil in E.
  assert (I : In (order_id r) (keys (groupby order_id (r :: t)))).
  { apply keys_groupby. left. reflexivity. }
  rewrite E in I. destruct I.
Qed.

(** With a record in the table the mean of the order totals is a number. *)
Lemma mean_of_order_totals {Fl : Float64} t :
  t <> [] -> exists q, Series_mean (map snd (order_totals t)) = Some q.
Proof.
  intros N. pose proof (order_totals_nonempty t N) as NE.
  unfold Series_mean. destruct (map snd (order_totals t)); [congruence|].
  eexists. reflexivity.
Qed.

Lemma kpis_run {Fl : Float64} w datas t q :
  nth_error (heap w) datas = Some t ->
  Series_mean (map snd (order_totals t)) = Some q ->
  display_dashboard_kpis datas w
  = (inr tt, mkWorld (heap w) (figures w)
               (page w ++ kpi_panel (total_sales_revenue t) (round_half_even q)
                                    (number_of_orders t))).
Proof.
  intros L E. open_routine. repeat lstep. rewrite E. tidy. repeat lstep. finish.
Qed.

Lemma emitted_app {A} (m : M A) w r h f out :
  m w = (r, mkWorld h f (page w ++ out)) -> emitted m w = out.
Proof.
  intros E. unfold emitted. rewrite E. cbn [snd page].
  rewrite skipn_app, skipn_all, Nat.sub_diag. reflexivity.
Qed.

(** *** The orders of a table *)

(** A grouping lists its groups by key: each group holds the rows of its
    key. *)
Lemma groupby_by_keys {K} `{KeyOrd K} {R} (key : R -> K) rows :
  groupby key rows
  = map (fun k => (k, filter (fun r => keqb (key r) k) rows)) (keys (groupby key rows)).
Proof.
  assert (G : forall gs : list (K * list R),
             (forall k rs, In (k, rs) gs -> rs = filter (fun r => keqb (key r) k) rows) ->
             gs = map (fun k => (k, filter (fun r => keqb (key r) k) rows)) (keys gs)).
  { induction gs as [|[k rs] gs IH]; intros Hg; cbn; [reflexivity|].
    rewrite <- (Hg k rs (or_introl eq_refl)). f_equal.
    apply IH. intros k' rs' I. apply Hg. right. exact I. }
  apply G. intros k rs I. apply (groupby_group key k rs rows I).
Qed.

Lemma insert_group_concat {K} `{KeyCmp K} {R} (key : R -> K) r (gs : list (K * list R)) :
  Permutation (List.concat (map snd (insert_group key r gs))) (r :: List.concat (map snd gs)).
Proof.
  induction gs as [|[k rs] gs IH]; cbn; [reflexivity|].
  destruct (cmp (key r) k); cbn.
  - reflexivity.
  - reflexivity.
  - rewrite IH. apply Permutation_sym, Permutation_middle.
Qed.

(** Every row is in exactly one group. *)
Lemma groupby_concat {K} `{KeyCmp K} {R} (key : R -> K) rows :
  Permutation (List.concat (map snd (groupby key rows))) rows.
Proof.
  induction rows as [|r rows IH]; cbn; [reflexivity|].
  rewrite insert_group_concat. constructor. exact IH.
Qed.

Lemma of_order_keqb t o :
  filter (fun r => keqb (order_id r) o) t = filter (of_order o) t.
Proof. apply filter_ext. intros r. apply keqb_string. Qed.

Lemma order_ids_spec t :
  increasing (keys (groupby order_id t)) /\
  (forall o, In o (keys (groupby order_id t)) <-> In o (map order_id t)).
Proof.
  split.
  - apply (ordered_sorted (groupby order_id t)), groupby_ordered.
  - intros o. apply keys_groupby.
Qed.

(** The order totals the routine computes: for each order id, in increasing
    order, the sum of the prices of its records. *)
Lemma order_totals_by_id {Fl : Float64} t :
  order_totals t
  = map (fun o => (o, GroupBy_sum (order_prices t o))) (keys (groupby order_id t)).
Proof.
  unfold order_totals. rewrite (groupby_by_keys order_id t) at 1.
  rewrite map_map. apply map_ext. intros o. cbn [fst snd].
  unfold order_prices. rewrite of_order_keqb. reflexivity.
Qed.

Lemma order_prices_concat t :
  Permutation (List.concat (map (order_prices t) (keys (groupby order_id t))))
              (map total_price t).
Proof.
  rewrite <- (Permutation_map total_price (groupby_concat order_id t)).
  rewrite concat_map, map_map.
  rewrite (groupby_by_keys order_id t) at 2. rewrite map_map. cbn [snd].
  assert (E : map (order_prices t) (keys (groupby order_id t))
              = map (fun o => map total_price (filter (fun r => keqb (order_id r) o) t))
                    (keys (groupby order_id t))).
  { apply map_ext. intros o. unfold order_prices. rewrite of_order_keqb. reflexivity. }
  rewrite E. reflexivity.
Qed.

Lemma exact_sum_by_order t :
  (exact_sum (map total_price t)
   == exact_sum (map (fun o => exact_sum (order_prices t o)) (keys (groupby order_id t))))%Q.
Proof.
  symmetry. unfold order_prices, of_order.
  apply (sum_by_key order_id String.eqb String.eqb_eq).
  - apply groupby_NoDup.
  - intros r I. apply keys_groupby, in_map, I.
Qed.

(** C1 (as amended).  For a table with at least one record, the value shown
    as Average Order Value is Python's [round] (to the nearest integer, a
    tie to the even one) of the float mean of the order totals, which are
    the float sums of the prices of each order, taken by increasing order
    id.  When these float operations do not round, that is total revenue
    over the number of distinct orders, rounded. *)
Theorem average_order_value_is_rounded {Fl : Float64} w datas t :
  nth_error (heap w) datas = Some t -> t <> [] ->
  exists ids,
    increasing ids /\
    (forall o, In o ids <-> In o (map order_id t)) /\
    let totals := map (fun o => GroupBy_sum (order_prices t o)) ids in
    fst (display_dashboard_kpis datas w) = inr tt /\
    shown_under "Average Order Value" (emitted (display_dashboard_kpis datas) w)
    = Some (Int (round_half_even (mean_of totals))) /\
    ((forall o, In o ids ->
        (GroupBy_sum (order_prices t o) == exact_sum (order_prices t o))%Q) ->
     (mean_of totals == exact_sum totals / Qnat (List.length ids))%Q ->
     round_half_even (mean_of totals)
     = round_half_even (exact_sum (map total_price t) / Qnat (List.length ids))).
Proof.
  intros L N. exists (keys (groupby order_id t)).
  destruct (order_ids_spec t) as [Inc Mem].
  split; [exact Inc|]. split; [exact Mem|]. cbv zeta.
  set (ids := keys (groupby order_id t)).
  set (totals := map (fun o => GroupBy_sum (order_prices t o)) ids).
  assert (Et : map snd (order_totals t) = totals).
  { rewrite order_totals_by_id, map_map. reflexivity. }
  assert (Mn : Series_mean (map snd (order_totals t)) = Some (mean_of totals)).
  { pose proof (order_totals_nonempty t N) as NE. rewrite Et in *.
    unfold Series_mean. destruct totals eqn:E; [congruence | reflexivity]. }
  pose proof (kpis_run w datas t _ L Mn) as Run.
  split; [rewrite Run; reflexivity|].
  split; [rewrite (emitted_app _ _ _ _ _ _ Run); reflexivity|].
  intros Eg Ed. apply round_half_even_comp.
  rewrite Ed, (exact_sum_by_order t). fold ids.
  assert (Ex : (exact_sum totals
                == exact_sum (map (fun o => exact_sum (order_prices t o)) ids))%Q).
  { unfold totals. apply exact_sum_ext. exact Eg. }
  rewrite Ex. reflexivity.
Qed.

Lemma average_order_value_is_rounded_witness :
  nth_error (heap sample_world) 0 = Some sample_table /\
  sample_table <> [] /\
  shown_under "Average Order Value"
    (emitted (display_dashboard_kpis (F := binary64) 0%nat) sample_world) = Some (Int 6) /\
  exists ids,
    increasing ids /\
    shown_under "Average Order Value"
      (emitted (display_dashboard_kpis (F := binary64) 0%nat) sample_world)
    = Some (Int (round_half_even
                   (mean_of (Float64 := binary64)
                      (map (fun o => GroupBy_sum (Float64 := binary64)
                                       (order_prices sample_table o)) ids)))).
Proof.
  assert (N : sample_table <> []) by discriminate.
  split; [reflexivity|]. split; [exact N|]. split; [vm_compute; reflexivity|].
  destruct (average_order_value_is_rounded (Fl := binary64) sample_world 0%nat sample_table
              eq_refl N) as (ids & Inc & _ & _ & S & _).
  exists ids. split; [exact Inc | exact S].
Defined.

(** C1 as stated fails: for the table of one order of price 10.5 the value
    shown is 10, and total revenue over the order count is 10.5. *)
Lemma average_order_value_not_the_ratio :
  shown_under "Average Order Value"
    (emitted (display_dashboard_kpis (F := binary64) 0%nat) (canon one_sale))
  = Some (Int 10) /\
  number_shown (Int 10) = Some (inject_Z 10) /\
  (total_sales_revenue (F := binary64) one_sale / Qnat (number_of_orders one_sale)
   == 21 # 2)%Q /\
  ~ (inject_Z 10
     == total_sales_revenue (F := binary64) one_sale / Qnat (number_of_orders one_sale))%Q.
Proof.
  split; [vm_compute; reflexivity|]. split; [reflexivity|].
  split; [vm_compute; reflexivity|].
  intros E. vm_compute in E. discriminate.
Qed.

(** C5 (as amended).  The order totals the routine computes are, for each
    distinct order id in increasing order, the float sum of the prices of
    the records of that order, and every record is in exactly one order: the
    order totals add up the same prices as total revenue.  So the two are
    equal in exact arithmetic, and equal as computed whenever none of the
    float sums rounds. *)
Theorem total_revenue_is_sum_of_order_totals {Fl : Float64} t :
  exists ids,
    increasing ids /\
    (forall o, In o ids <-> In o (map order_id t)) /\
    order_totals t = map (fun o => (o, GroupBy_sum (order_prices t o))) ids /\
    Permutation (List.concat (map (order_prices t) ids)) (map total_price t) /\
    (exact_sum (map total_price t)
     == exact_sum (map (fun o => exact_sum (order_prices t o)) ids))%Q /\
    ((total_sales_revenue t == exact_sum (map total_price t))%Q ->
     (forall o, In o ids ->
        (GroupBy_sum (order_prices t o) == exact_sum (order_prices t o))%Q) ->
     (Series_sum (map snd (order_totals t)) == exact_sum (map snd (order_totals t)))%Q ->
     (total_sales_revenue t == Series_sum (map snd (order_totals t)))%Q).
Proof.
  exists (keys (groupby order_id t)).
  destruct (order_ids_spec t) as [Inc Mem].
  split; [exact Inc|]. split; [exact Mem|].
  split; [apply order_totals_by_id|].
  split; [apply order_prices_concat|].
  split; [apply exact_sum_by_order|].
  intros Et Eg Es. rewrite Es, Et, (exact_sum_by_order t).
  rewrite order_totals_by_id, map_map. cbn [snd].
  symmetry. apply exact_sum_ext. exact Eg.
Qed.

Lemma total_revenue_is_sum_of_order_totals_witness :
  (total_sales_revenue (F := binary64) sample_table
   == Series_sum (Float64 := binary64)
        (map snd (order_totals (F := binary64) sample_table)))%Q.
Proof.
  destruct (total_revenue_is_sum_of_order_totals (Fl := binary64) sample_table)
    as (ids & _ & Mem & _ & _ & _ & Exact).
  apply Exact.
  - vm_compute. reflexivity.
  - intros o I. apply Mem in I. vm_compute in I.
    repeat (destruct I as [<-|I]; [vm_compute; reflexivity|]). destruct I.
  - vm_compute. reflexivity.
Defined.

(** C5 as stated fails in binary64: for three orders of prices 0.1, 0.2 and
    0.3, in that file order and with ids c, a, b, total revenue is
    (0.1 + 0.2) + 0.3 = 0.6000000000000001 and the order totals, taken by
    increasing id, add up to (0.2 + 0.3) + 0.1 = 0.6. *)
Lemma total_revenue_differs_from_order_totals :
  total_sales_revenue (F := binary64) three_orders
  = 1351079888211149 # 2251799813685248 /\
  map snd (order_totals (F := binary64) three_orders)
  = [double (2 # 10); double (3 # 10); double (1 # 10)] /\
  Series_sum (Float64 := binary64) (map snd (order_totals (F := binary64) three_orders))
  = 5404319552844595 # 9007199254740992 /\
  ~ (total_sales_revenue (F := binary64) three_orders
     == Series_sum (Float64 := binary64)
          (map snd (order_totals (F := binary64) three_orders)))%Q.
Proof.
  split; [vm_compute; reflexivity|]. split; [vm_compute; reflexivity|].
  split; [vm_compute; reflexivity|].
  intros E. vm_compute in E. discriminate.
Qed.

(** What is shown as Total Revenue is that sum, formatted as US dollars. *)
Lemma total_revenue_shown {Fl : Float64} w datas t :
  nth_error (heap w) datas = Some t -> t <> [] ->
  shown_under "Total Revenue" (emitted (display_dashboard_kpis datas) w)
  = Some (Currency (total_sales_revenue t) "USD" "en_US").
Proof.
  intros L N. destruct (mean_of_order_totals t N) as [q M].
  rewrite (emitted_app _ _ _ _ _ _ (kpis_run w datas t q L M)). reflexivity.
Qed.

(** ** The table is left as it is *)

Lemma load_fail l w : nth_error (heap w) l = None -> load l w = (inl NameError, w).
Proof. unfold load. intros ->. reflexivity. Qed.

Lemma keeps_bind {A B} l (m : M A) (k : A -> M B) :
  keeps l m -> (forall a, keeps l (k a)) -> keeps l (bind m k).
Proof.
  intros Hm Hk w. unfold bind. specialize (Hm w).
  destruct (m w) as [[e|a] w']; cbn [snd] in *; [exact Hm|].
  rewrite Hk. exact Hm.
Qed.

Lemma keeps_emit l e : keeps l (emit e).
Proof. intros w. reflexivity. Qed.

Lemma keeps_with_column {A} l i (body : M A) :
  keeps l body -> keeps l (with_column i body).
Proof.
  intros Hb w. unfold with_column.
  specialize (Hb (mkWorld (heap w) (figures w) [])).
  destruct (body _) as [r w']. exact Hb.
Qed.

Lemma relocate_keeps {A} w (rw : (Exn + A) * World) l df :
  nth_error (heap w) l = Some df ->
  nth_error (heap (snd (relocate w rw))) l = nth_error (heap w) l.
Proof.
  intros L. unfold relocate. cbn [snd heap].
  rewrite L. apply nth_error_app_old, L.
Qed.

Lemma kpis_absent {Fl : Float64} w datas :
  nth_error (heap w) datas = None -> display_dashboard_kpis datas w = (inl NameError, w).
Proof.
  intros L. open_routine. apply bind_fail, load_fail, L.
Qed.

Lemma orders_absent w datas picked :
  nth_error (heap w) datas = None ->
  display_orders_per_day_latest_year datas picked w = (inl NameError, w).
Proof.
  intros L. open_routine. apply bind_fail, load_fail, L.
Qed.

Lemma demographic_absent w datas :
  nth_error (heap w) datas = None ->
  display_customer_demographic datas w = (inl NameError, w).
Proof.
  intros L. open_routine. apply bind_fail, load_fail, L.
Qed.

Lemma payment_absent w datas :
  nth_error (heap w) datas = None ->
  display_payment_distribution datas w = (inl NameError, w).
Proof.
  intros L. open_routine. apply bind_fail, load_fail, L.
Qed.

Lemma kpis_keeps {Fl : Float64} datas : keeps datas (display_dashboard_kpis datas).
Proof.
  intros w. destruct (nth_error (heap w) datas) as [t|] eqn:L.
  - rewrite (kpis_local w datas t L), <- L. eapply relocate_keeps, L.
  - rewrite (kpis_absent w datas L). exact L.
Qed.

Lemma orders_keeps datas picked :
  keeps datas (display_orders_per_day_latest_year datas picked).
Proof.
  intros w. destruct (nth_error (heap w) datas) as [t|] eqn:L.
  - rewrite (orders_local w datas t picked L), <- L. eapply relocate_keeps, L.
  - rewrite (orders_absent w datas picked L). exact L.
Qed.

Lemma demographic_keeps datas : keeps datas (display_customer_demographic datas).
Proof.
  intros w. destruct (nth_error (heap w) datas) as [t|] eqn:L.
  - rewrite (demographic_local w datas t L), <- L. eapply relocate_keeps, L.
  - rewrite (demographic_absent w datas L). exact L.
Qed.

Lemma payment_keeps datas : keeps datas (display_payment_distribution datas).
Proof.
  intros w. destruct (nth_error (heap w) datas) as [t|] eqn:L.
  - rewrite (payment_local w datas t L), <- L. eapply relocate_keeps, L.
  - rewrite (payment_absent w datas L). exact L.
Qed.

Lemma main_keeps {Fl : Float64} datas picked : keeps datas (main datas picked).
Proof.
  unfold main, st_title, st_columns, st_subheader.
  repeat lazymatch goal with
    | |- keeps _ (bind _ _) => apply keeps_bind; [|intros _]
    | |- keeps _ (with_column _ _) => apply keeps_with_column
    | |- keeps _ (emit _) => apply keeps_emit
    | |- keeps _ (display_dashboard_kpis _) => apply kpis_keeps
    | |- keeps _ (display_orders_per_day_latest_year _ _) => apply orders_keeps
    | |- keeps _ (display_customer_demographic _) => apply demographic_keeps
    | |- keeps _ (display_payment_distribution _) => apply payment_keeps
    end.
Qed.

(** C2 (as amended).  Once the table is loaded (read, and its two timestamp
    columns parsed), every display routine, and [main], leaves the frame
    [datas] refers to exactly as it was before the call, whatever the
    outcome of the call. *)
Theorem displays_keep_the_table {Fl : Float64} datas picked w :
  nth_error (heap (snd (display_dashboard_kpis datas w))) datas
    = nth_error (heap w) datas /\
  nth_error (heap (snd (display_orders_per_day_latest_year datas picked w))) datas
    = nth_error (heap w) datas /\
  nth_error (heap (snd (display_customer_demographic datas w))) datas
    = nth_error (heap w) datas /\
  nth_error (heap (snd (display_payment_distribution datas w))) datas
    = nth_error (heap w) datas /\
  nth_error (heap (snd (main datas picked w))) datas = nth_error (heap w) datas.
Proof.
  repeat split.
  - apply kpis_keeps.
  - apply orders_keeps.
  - apply demographic_keeps.
  - apply payment_keeps.
  - apply main_keeps.
Qed.

(** C2 as stated fails: the statements that follow the read replace the two
    timestamp columns of the table. *)
Lemma load_step_rewrites_the_table :
  pd_read_csv sample_file empty_world = (inr 0%nat, mkWorld [sample_file] [] []) /\
  fst (module_init sample_file empty_world) = inr 0%nat /\
  nth_error (heap (snd (module_init sample_file empty_world))) 0
    <> Some sample_file.
Proof.
  split; [reflexivity|]. split; [reflexivity|].
  vm_compute. discriminate.
Qed.

(** ** The display depends on the table only *)

Lemma shows_relocate {A} (m : M A) w (rw : (Exn + A) * World) :
  m w = relocate w rw -> shows m w = (fst rw, page (snd rw)).
Proof.
  intros E. unfold shows. f_equal.
  - rewrite E. reflexivity.
  - eapply emitted_app. rewrite E. unfold relocate. reflexivity.
Qed.

Lemma shows_absent {A} (m : M A) w e : m w = (inl e, w) -> shows m w = (inl e, []).
Proof.
  intros E. unfold shows, emitted. rewrite E. cbn [fst snd].
  rewrite skipn_all. reflexivity.
Qed.

(** C7.  Two runs of a display routine on equal tables (and, for the
    orders-per-day panel, equal selections) end the same way and show the
    same elements, whatever else the two processes hold: other frames,
    figures drawn before, elements already on the page. *)
Theorem displays_depend_on_the_table_only {Fl : Float64} w1 w2 d1 d2 picked :
  nth_error (heap w1) d1 = nth_error (heap w2) d2 ->
  shows (display_dashboard_kpis d1) w1 = shows (display_dashboard_kpis d2) w2 /\
  shows (display_orders_per_day_latest_year d1 picked) w1
    = shows (display_orders_per_day_latest_year d2 picked) w2 /\
  shows (display_customer_demographic d1) w1 = shows (display_customer_demographic d2) w2 /\
  shows (display_payment_distribution d1) w1 = shows (display_payment_distribution d2) w2.
Proof.
  intros E. destruct (nth_error (heap w2) d2) as [t|] eqn:L2.
  - repeat split.
    + rewrite (shows_relocate _ _ _ (kpis_local w1 d1 t E)),
        (shows_relocate _ _ _ (kpis_local w2 d2 t L2)). reflexivity.
    + rewrite (shows_relocate _ _ _ (orders_local w1 d1 t picked E)),
        (shows_relocate _ _ _ (orders_local w2 d2 t picked L2)). reflexivity.
    + rewrite (shows_relocate _ _ _ (demographic_local w1 d1 t E)),
        (shows_relocate _ _ _ (demographic_local w2 d2 t L2)). reflexivity.
    + rewrite (shows_relocate _ _ _ (payment_local w1 d1 t E)),
        (shows_relocate _ _ _ (payment_local w2 d2 t L2)). reflexivity.
  - repeat split.
    + rewrite (shows_absent _ _ _ (kpis_absent w1 d1 E)),
        (shows_absent _ _ _ (kpis_absent w2 d2 L2)). reflexivity.
    + rewrite (shows_absent _ _ _ (orders_absent w1 d1 picked E)),
        (shows_absent _ _ _ (orders_absent w2 d2 picked L2)). reflexivity.
    + rewrite (shows_absent _ _ _ (demographic_absent w1 d1 E)),
        (shows_absent _ _ _ (demographic_absent w2 d2 L2)). reflexivity.
    + rewrite (shows_absent _ _ _ (payment_absent w1 d1 E)),
        (shows_absent _ _ _ (payment_absent w2 d2 L2)). reflexivity.
Qed.

Lemma displays_depend_on_the_table_only_witness :
  nth_error (heap sample_world) 0 = nth_error (heap busy_world) 1 /\
  shows (display_orders_per_day_latest_year 0%nat [mkDate 2018 1 1; mkDate 2018 12 31])
        sample_world
  = shows (display_orders_per_day_latest_year 1%nat [mkDate 2018 1 1; mkDate 2018 12 31])
          busy_world.
Proof.
  split; [reflexivity|].
  apply (displays_depend_on_the_table_only (Fl := binary64) sample_world busy_world 0%nat 1%nat).
  reflexivity.
Defined.

(** ** The demographic panel *)

Lemma insert_desc_perm {A} (x : A * nat) l : Permutation (insert_desc x l) (x :: l).
Proof.
  induction l as [|y l IH]; simpl; [reflexivity|].
  destruct (snd y <=? snd x)%nat; [reflexivity|].
  rewrite IH. apply perm_swap.
Qed.

Lemma sort_values_desc_perm {A} (l : list (A * nat)) :
  Permutation (sort_values_desc l) l.
Proof.
  induction l as [|x l IH]; simpl; [reflexivity|].
  rewrite insert_desc_perm. constructor. exact IH.
Qed.

Lemma insert_desc_sorted {A} (x : A * nat) l :
  StronglySorted by_count l -> StronglySorted by_count (insert_desc x l).
Proof.
  induction 1 as [|y l S IH F]; simpl.
  - constructor; constructor.
  - destruct (Nat.leb_spec (snd y) (snd x)) as [Le|Gt].
    + constructor; [constructor; assumption|].
      constructor; [exact Le|].
      rewrite Forall_forall in *. intros z I. specialize (F z I).
      unfold by_count in *. lia.
    + constructor; [exact IH|].
      rewrite Forall_forall in *. intros z I.
      apply (Permutation_in _ (insert_desc_perm x l)) in I.
      destruct I as [<-|I]; [unfold by_count; lia | auto].
Qed.

Lemma sort_values_desc_sorted {A} (l : list (A * nat)) :
  StronglySorted by_count (sort_values_desc l).
Proof.
  induction l; simpl; [constructor | apply insert_desc_sorted; assumption].
Qed.

Lemma StronglySorted_app {A} (R : A -> A -> Prop) a b :
  StronglySorted R (a ++ b) ->
  StronglySorted R a /\ (forall x y, In x a -> In y b -> R x y).
Proof.
  induction a as [|z a IH]; simpl; intros S.
  - split; [constructor | tauto].
  - inversion S as [|? ? S' F]; subst. destruct (IH S') as [Sa Rab].
    rewrite Forall_forall in F. split.
    + constructor; [exact Sa|]. rewrite Forall_forall. intros x I.
      apply F, in_or_app. left. exact I.
    + intros x y [<-|I] J; [apply F, in_or_app; right; exact J | auto].
Qed.

Lemma StronglySorted_unmap {A B} (R : B -> B -> Prop) (f : A -> B) l :
  StronglySorted R (map f l) -> StronglySorted (fun a b => R (f a) (f b)) l.
Proof.
  induction l as [|a l IH]; simpl; intros S; [constructor|].
  inversion S as [|? ? S' F]; subst. constructor; [auto|].
  rewrite Forall_forall in *. intros x I. apply F, in_map, I.
Qed.

(** The first [n] rows of a table sorted by decreasing count. *)
Lemma top_of_sorted {A} n (l srt : list (A * nat)) :
  Permutation srt l -> StronglySorted by_count srt ->
  StronglySorted by_count (firstn n srt) /\
  (forall x, In x (firstn n srt) -> In x l) /\
  (forall x y, In x l -> ~ In x (firstn n srt) -> In y (firstn n srt) ->
     (snd x <= snd y)%nat) /\
  List.length (firstn n srt) = Nat.min n (List.length l).
Proof.
  intros P S. rewrite <- (firstn_skipn n srt) in S.
  apply StronglySorted_app in S. destruct S as [S Rel].
  repeat split.
  - exact S.
  - intros x I. apply (Permutation_in _ P).
    rewrite <- (firstn_skipn n srt). apply in_or_app. left. exact I.
  - intros x y I N J. apply (Permutation_in _ (Permutation_sym P)) in I.
    rewrite <- (firstn_skipn n srt) in I. apply in_app_or in I.
    destruct I as [I|I]; [contradiction|]. apply (Rel y x J I).
  - rewrite length_firstn, (Permutation_length P). reflexivity.
Qed.

Lemma city_count_spec t c n :
  In (c, n) (customer_city_count t) ->
  In c (map customer_city t) /\ n = distinct_customers t c.
Proof.
  unfold customer_city_count. intros I. apply in_map_iff in I.
  destruct I as [[k rs] [E I]]. simpl in E. inversion E; subst. clear E. split.
  - apply (keys_groupby customer_city). apply in_map_iff. exists (c, rs). auto.
  - apply groupby_group in I. destruct I as [-> _]. unfold distinct_customers.
    f_equal. f_equal. apply filter_ext. intros r. apply keqb_string.
Qed.

Lemma city_count_complete t c :
  In c (map customer_city t) -> In (c, distinct_customers t c) (customer_city_count t).
Proof.
  intros I. apply (keys_groupby customer_city) in I. apply in_map_iff in I.
  destruct I as [[k rs] [E I]]. simpl in E. subst k.
  assert (J : In (c, nunique (map customer_unique_id rs)) (customer_city_count t)).
  { unfold customer_city_count. apply in_map_iff. exists (c, rs). auto. }
  destruct (city_count_spec _ _ _ J) as [_ E]. rewrite <- E. exact J.
Qed.

Lemma city_count_cities t :
  map fst (customer_city_count t) = keys (groupby customer_city t).
Proof. unfold customer_city_count, keys. rewrite map_map. reflexivity. Qed.

Lemma combine_fst {A B} (l : list A) (l' : list B) :
  (List.length l <= List.length l')%nat -> map fst (combine l l') = l.
Proof.
  revert l'. induction l as [|a l IH]; intros [|b l'] Le; simpl in *;
    try reflexivity; try lia.
  f_equal. apply IH. lia.
Qed.

Lemma demographic_run w datas t :
  nth_error (heap w) datas = Some t ->
  display_customer_demographic datas w
  = (inr tt, mkWorld (heap w) (demographic_figure t :: figures w)
               (page w ++ [Pyplot (demographic_figure t)])).
Proof.
  intros L. open_routine. repeat lstep. finish.
Qed.

(** C3.  The demographic panel plots at most five cities (five when the table
    has that many), each once and with its number of distinct customers; no
    city left out has more distinct customers than a plotted one; and the
    bars come in non-increasing order of that number.  A table with a record
    does get its plot; the properties hold of whatever is plotted. *)
Theorem top_cities_by_distinct_customers w datas t :
  nth_error (heap w) datas = Some t ->
  (t <> [] ->
   exists bars, bars_of (emitted (display_customer_demographic datas) w) = Some bars) /\
  forall bars,
    bars_of (emitted (display_customer_demographic datas) w) = Some bars ->
    (List.length bars <= 5)%nat /\
    List.length bars = Nat.min 5 (nunique (map customer_city t)) /\
    NoDup (map bar_x bars) /\
    (forall b, In b bars ->
       In (bar_x b) (map customer_city t) /\
       bar_height b = distinct_customers t (bar_x b)) /\
    (forall c b, In c (map customer_city t) -> ~ In c (map bar_x bars) ->
       In b bars -> (distinct_customers t c <= bar_height b)%nat) /\
    StronglySorted (fun a b => (bar_height b <= bar_height a)%nat) bars.
Proof.
  intros L. pose proof (demographic_run w datas t L) as Run.
  rewrite (emitted_app _ _ _ _ _ _ Run).
  split; [intros _; eexists; reflexivity|].
  change (bars_of [Pyplot (demographic_figure t)]) with (Some (demographic_bars t)).
  intros bars0 B0. injection B0 as <-.
  set (top := top_10_cities t).
  set (bars := demographic_bars t).
  destruct (top_of_sorted 5 (customer_city_count t) _
              (sort_values_desc_perm _) (sort_values_desc_sorted _))
    as [S [Sub [Top Len]]].
  fold (top_10_cities t) in S, Sub, Top, Len. fold top in S, Sub, Top, Len.
  assert (Len5 : (List.length top <= 5)%nat) by (rewrite Len; lia).
  assert (E : map (fun b => (bar_x b, bar_height b)) bars = top).
  { unfold bars, demographic_bars. fold top. rewrite map_map. cbn [bar_x bar_height].
    rewrite <- (combine_fst top ["lightgreen"; "skyblue"; "salmon"; "gold"; "orange"]%string)
      at 2 by exact Len5.
    apply map_ext. intros [[c n] col]. reflexivity. }
  assert (Ex : map bar_x bars = map fst top).
  { rewrite <- E, map_map. reflexivity. }
  assert (InTop : forall b, In b bars -> In (bar_x b, bar_height b) top).
  { intros b I. rewrite <- E. apply (in_map (fun b => (bar_x b, bar_height b))), I. }
  split; [|split; [|split; [|split; [|split]]]].
  - rewrite <- (length_map (fun b => (bar_x b, bar_height b))), E. exact Len5.
  - rewrite <- (length_map (fun b => (bar_x b, bar_height b))), E, Len.
    unfold customer_city_count, nunique. rewrite length_map.
    rewrite (groupby_length customer_city string_dec). reflexivity.
  - rewrite Ex.
    assert (N : NoDup (map fst (sort_values_desc (customer_city_count t)))).
    { eapply Permutation_NoDup.
      - apply Permutation_map, Permutation_sym, sort_values_desc_perm.
      - rewrite city_count_cities. apply groupby_NoDup. }
    rewrite <- (firstn_skipn 5 (sort_values_desc (customer_city_count t))) in N.
    rewrite map_app in N. apply NoDup_app_remove_r in N. exact N.
  - intros b I. apply (city_count_spec t _ _ (Sub _ (InTop b I))).
  - intros c b I N J.
    apply (Top (c, distinct_customers t c) (bar_x b, bar_height b)).
    + apply city_count_complete, I.
    + intros K. apply N. rewrite Ex. apply (in_map fst) in K. exact K.
    + apply InTop, J.
  - apply (StronglySorted_unmap by_count (fun b => (bar_x b, bar_height b))).
    rewrite E. exact S.
Qed.

Lemma top_cities_by_distinct_customers_witness :
  nth_error (heap sample_world) 0 = Some sample_table /\
  exists bars,
    bars_of (emitted (display_customer_demographic 0%nat) sample_world) = Some bars /\
    List.length bars = 2%nat.
Proof.
  assert (N : sample_table <> []) by discriminate.
  split; [reflexivity|].
  destruct (top_cities_by_distinct_customers sample_world 0%nat sample_table eq_refl)
    as [[bars B] P].
  - exact N.
  - destruct (P bars B) as [_ [Len _]]. exists bars. split; [exact B | exact Len].
Defined.

(** ** The payment panel *)

Section FilteredSize.
Context {K : Type} `{KeyOrd K} {R : Type}.
Variable key : R -> K.
Variable keep : K -> bool.

Lemma kept_sizes_cons k (rs : list R) gs :
  list_sum (map snd (kept_sizes keep ((k, rs) :: gs)))
  = ((if keep k then List.length rs else 0) + list_sum (map snd (kept_sizes keep gs)))%nat.
Proof.
  unfold kept_sizes. cbn [map filter fst snd].
  destruct (keep k); reflexivity.
Qed.

Lemma insert_group_kept_size r gs :
  list_sum (map snd (kept_sizes keep (insert_group key r gs)))
  = ((if keep (key r) then 1 else 0) + list_sum (map snd (kept_sizes keep gs)))%nat.
Proof.
  induction gs as [|[k rs] gs IH]; cbn [insert_group].
  - rewrite kept_sizes_cons. destruct (keep (key r)); reflexivity.
  - destruct (cmp (key r) k) eqn:C; rewrite !kept_sizes_cons.
    + apply cmp_eq in C. subst k. destruct (keep (key r)); cbn [List.length]; lia.
    + destruct (keep (key r)); cbn [List.length]; lia.
    + rewrite IH. lia.
Qed.

(** The kept groups hold the rows whose key is kept. *)
Lemma groupby_kept_size rows :
  list_sum (map snd (kept_sizes keep (groupby key rows)))
  = count_if (fun r => keep (key r)) rows.
Proof.
  unfold count_if. induction rows as [|r rows IH]; [reflexivity|].
  cbn [groupby fold_right]. fold (groupby key rows).
  rewrite insert_group_kept_size, IH. cbn [filter].
  destruct (keep (key r)); reflexivity.
Qed.
End FilteredSize.

Lemma filtered_payment_type_kept t :
  filtered_payment_type t
  = kept_sizes (fun p => negb (String.eqb p "not_defined")) (groupby payment_type t).
Proof. reflexivity. Qed.

Lemma payment_total t :
  list_sum (map snd (filtered_payment_type t)) = count_if defined_payment t.
Proof.
  rewrite filtered_payment_type_kept.
  apply (groupby_kept_size payment_type (fun p => negb (String.eqb p "not_defined"))).
Qed.

Lemma filtered_payment_type_spec t p n :
  In (p, n) (filtered_payment_type t) ->
  p <> "not_defined"%string /\ In p (map payment_type t) /\ n = count_if (paid_by p) t.
Proof.
  unfold filtered_payment_type, payment_counts. intros I.
  apply filter_In in I. destruct I as [I D]. cbn [fst] in D.
  apply in_map_iff in I. destruct I as [[k rs] [E I]]. cbn [fst snd] in E.
  inversion E; subst. clear E. repeat split.
  - intros ->. discriminate.
  - apply (keys_groupby payment_type). apply in_map_iff. exists (p, rs). auto.
  - apply groupby_group in I. destruct I as [-> _]. unfold count_if.
    f_equal. apply filter_ext. intros r. apply keqb_string.
Qed.

Lemma filtered_payment_type_complete t p :
  p <> "not_defined"%string -> In p (map payment_type t) ->
  In p (map fst (filtered_payment_type t)).
Proof.
  intros D I. apply (keys_groupby payment_type) in I. apply in_map_iff in I.
  destruct I as [[k rs] [E I]]. cbn in E. subst k.
  apply in_map_iff. exists (p, List.length rs). split; [reflexivity|].
  unfold filtered_payment_type, payment_counts. apply filter_In. split.
  - apply in_map_iff. exists (p, rs). auto.
  - cbn [fst]. destruct (String.eqb_spec p "not_defined"); [contradiction | reflexivity].
Qed.

Lemma map_fst_filter {A B} (keep : A -> bool) (l : list (A * B)) :
  map fst (filter (fun x => keep (fst x)) l) = filter keep (map fst l).
Proof.
  induction l as [|[a b] l IH]; cbn; [reflexivity|].
  destruct (keep a); cbn; congruence.
Qed.

Lemma filtered_payment_type_NoDup t : NoDup (map fst (filtered_payment_type t)).
Proof.
  unfold filtered_payment_type, payment_counts.
  rewrite (map_fst_filter (fun p => negb (String.eqb p "not_defined"))).
  apply NoDup_filter. rewrite map_map. cbn [fst]. apply (groupby_NoDup payment_type).
Qed.

Lemma wedges_labels i total fmt colors xs :
  map wedge_label (wedges_from i total fmt colors xs) = map fst xs.
Proof.
  revert i. induction xs as [|[l x] xs IH]; intros i; cbn; [reflexivity|].
  rewrite IH. reflexivity.
Qed.

Lemma wedges_values i total fmt colors xs wd :
  In wd (wedges_from i total fmt colors xs) ->
  In (wedge_label wd, wedge_x wd) xs /\ wedge_total wd = total /\
  wedge_text wd = Percent fmt (wedge_x wd) total.
Proof.
  revert i. induction xs as [|[l x] xs IH]; intros i; cbn; [tauto|].
  intros [<-|I].
  - cbn. auto.
  - destruct (IH _ I) as (J & T & P). auto.
Qed.

Lemma wedges_in i total fmt colors xs wd :
  In wd (wedges_from i total fmt colors xs) ->
  exists x, In (wedge_label wd, x) xs /\ wedge_share wd = (Qnat x / Qnat total)%Q.
Proof.
  intros I. apply wedges_values in I. destruct I as (J & T & _).
  exists (wedge_x wd). split; [exact J|]. unfold wedge_share. rewrite T. reflexivity.
Qed.

Lemma wedges_color i total fmt colors xs j wd :
  nth_error (wedges_from i total fmt colors xs) j = Some wd ->
  wedge_color wd = cycle_color colors (i + j).
Proof.
  revert i j. induction xs as [|[l x] xs IH]; intros i [|j]; cbn; try discriminate.
  - intros [= <-]. cbn. rewrite Nat.add_0_r. reflexivity.
  - intros E. rewrite (IH _ _ E). f_equal. lia.
Qed.

Lemma wedges_x i total fmt colors xs :
  map wedge_x (wedges_from i total fmt colors xs) = map snd xs.
Proof.
  revert i. induction xs as [|[l x] xs IH]; intros i; cbn; [reflexivity|].
  rewrite IH. reflexivity.
Qed.

Lemma Qnat_plus a b : (Qnat (a + b) == Qnat a + Qnat b)%Q.
Proof. unfold Qnat. rewrite Nat2Z.inj_add, inject_Z_plus. reflexivity. Qed.

Lemma wedges_share_sum i total fmt colors xs :
  (exact_sum (map wedge_share (wedges_from i total fmt colors xs))
   == Qnat (list_sum (map snd xs)) / Qnat total)%Q.
Proof.
  revert i. induction xs as [|[l x] xs IH]; intros i.
  - cbn. unfold Qdiv. rewrite Qmult_0_l. reflexivity.
  - cbn [wedges_from map exact_sum fold_right list_sum snd].
    fold (exact_sum (map wedge_share (wedges_from (S i) total fmt colors xs))).
    fold (list_sum (map snd xs)).
    rewrite IH, Qnat_plus. unfold wedge_share. cbn [wedge_x wedge_total].
    fold (Qnat x). fold (Qnat total). unfold Qdiv. ring.
Qed.

Lemma payment_run w datas t :
  nth_error (heap w) datas = Some t ->
  display_payment_distribution datas w
  = (inr tt, mkWorld (heap w) (payment_figure t :: figures w)
               (page w ++ payment_panel t)).
Proof.
  intros L. open_routine. repeat lstep. finish.
Qed.

(** C4 (as amended).  When some record has a payment type other than
    [not_defined], the pie has one wedge per such payment type; the value of
    a wedge is the number of records of its payment type, out of the number
    of records of all those types, which the values add up to: the exact
    shares add up to 1.  What is printed on a wedge is its percentage to one
    decimal. *)
Theorem pie_shares_sum_to_one w datas t :
  nth_error (heap w) datas = Some t ->
  (exists r, In r t /\ payment_type r <> "not_defined"%string) ->
  exists wedges,
    pie_of (emitted (display_payment_distribution datas) w) = Some wedges /\
    NoDup (map wedge_label wedges) /\
    (forall p, In p (map wedge_label wedges) <->
               p <> "not_defined"%string /\ In p (map payment_type t)) /\
    (forall wd, In wd wedges ->
       wedge_x wd = count_if (paid_by (wedge_label wd)) t /\
       wedge_total wd = count_if defined_payment t /\
       wedge_text wd = Percent "%1.1f%%" (wedge_x wd) (wedge_total wd)) /\
    list_sum (map wedge_x wedges) = count_if defined_payment t /\
    (0 < count_if defined_payment t)%nat /\
    (exact_sum (map wedge_share wedges) == 1)%Q.
Proof.
  intros L [r [I D]]. pose proof (payment_run w datas t L) as Run.
  rewrite (emitted_app _ _ _ _ _ _ Run).
  exists (payment_wedges t). split; [reflexivity|].
  assert (Pos : (0 < count_if defined_payment t)%nat).
  { unfold count_if.
    assert (J : In r (filter defined_payment t)).
    { apply filter_In. split; [exact I|]. unfold defined_payment.
      destruct (String.eqb_spec (payment_type r) "not_defined"); [contradiction|reflexivity]. }
    destruct (filter defined_payment t); [destruct J | cbn; lia]. }
  unfold payment_wedges. rewrite payment_total, wedges_labels, wedges_x, payment_total.
  split; [|split; [|split; [|split; [|split]]]].
  - apply filtered_payment_type_NoDup.
  - intros p. split.
    + intros J. apply in_map_iff in J. destruct J as [[p' n] [E J]]. cbn in E. subst p'.
      destruct (filtered_payment_type_spec t p n J) as [Dp [Ip _]]. auto.
    + intros [Dp Ip]. apply filtered_payment_type_complete; assumption.
  - intros wd J. apply wedges_values in J. destruct J as (J & T & P).
    apply filtered_payment_type_spec in J. destruct J as [_ [_ X]].
    rewrite P, T. auto.
  - reflexivity.
  - exact Pos.
  - rewrite wedges_share_sum, payment_total.
    apply Qmult_inv_r. unfold Qnat, Qeq. cbn. lia.
Qed.

Lemma StronglySorted_filter {A} (R : A -> A -> Prop) (f : A -> bool) l :
  StronglySorted R l -> StronglySorted R (filter f l).
Proof.
  induction 1 as [|a l S IH F]; cbn; [constructor|].
  destruct (f a); [|exact IH]. constructor; [exact IH|].
  rewrite Forall_forall in *. intros x I. apply filter_In in I. apply F, I.
Qed.

(** The payment types of the pie come in increasing order. *)
Lemma payment_groups_sorted t :
  StronglySorted (fun a b => String.compare a b = Lt) (map fst (filtered_payment_type t)).
Proof.
  unfold filtered_payment_type, payment_counts.
  rewrite (map_fst_filter (fun p => negb (String.eqb p "not_defined"))).
  apply StronglySorted_filter. rewrite map_map. cbn [fst].
  apply (ordered_sorted (groupby payment_type t)), groupby_ordered.
Qed.

Lemma increasing_ext (l l' : list string) :
  increasing l -> increasing l' -> (forall x, In x l <-> In x l') -> l = l'.
Proof.
  unfold increasing. intros S. revert l'.
  induction S as [|a l S IH Fa]; intros l' S' E.
  - destruct l' as [|b l']; [reflexivity|]. destruct (proj2 (E b) (or_introl eq_refl)).
  - destruct S' as [|b l' S' Fb]; [destruct (proj1 (E a) (or_introl eq_refl))|].
    rewrite Forall_forall in Fa, Fb.
    assert (Eab : a = b).
    { destruct (proj1 (E a) (or_introl eq_refl)) as [->|Ia]; [reflexivity|].
      destruct (proj2 (E b) (or_introl eq_refl)) as [->|Ib]; [reflexivity|].
      pose proof (cmp_trans _ _ _ (Fb a Ia) (Fa b Ib)) as C.
      rewrite cmp_refl in C. discriminate. }
    subst b. f_equal. apply IH; [exact S'|].
    intros x. split; intros Ix.
    + destruct (proj1 (E x) (or_intror Ix)) as [<-|J]; [|exact J].
      pose proof (Fa a Ix) as C. change (cmp a a = Lt) in C.
      rewrite cmp_refl in C. discriminate.
    + destruct (proj2 (E x) (or_intror Ix)) as [<-|J]; [|exact J].
      pose proof (Fb a Ix) as C. change (cmp a a = Lt) in C.
      rewrite cmp_refl in C. discriminate.
Qed.

(** C10.  The legend is the same four entries for every table.  The pie has
    one wedge for each payment type of the table other than [not_defined],
    by increasing payment type, as large as the number of records of that
    type; wedge [i] takes colour [i] of the colour list (taken round and
    round).  So legend and wedges correspond, entry by entry in colour and
    label, exactly when the wedges are credit_card, boleto, voucher,
    debit_card, in that order; a table with just the four payment types of
    the legend gives boleto, credit_card, debit_card, voucher instead, each
    in the colour the legend shows for another type. *)
Theorem legend_is_fixed_slices_follow_groups w datas t :
  nth_error (heap w) datas = Some t ->
  exists wedges,
    legend_of (emitted (display_payment_distribution datas) w) = legend /\
    pie_of (emitted (display_payment_distribution datas) w) = Some wedges /\
    increasing (map wedge_label wedges) /\
    (forall p, In p (map wedge_label wedges) <->
               p <> "not_defined"%string /\ In p (map payment_type t)) /\
    (forall wd, In wd wedges -> wedge_x wd = count_if (paid_by (wedge_label wd)) t) /\
    (forall i wd, nth_error wedges i = Some wd ->
       wedge_color wd = nth (i mod 4) payment_colors ""%string) /\
    (map slice wedges = legend <->
     map wedge_label wedges = ["credit_card"; "boleto"; "voucher"; "debit_card"]%string) /\
    ((forall p, In p (map payment_type t) ->
        p = "not_defined"%string
        \/ In p ["credit_card"; "boleto"; "voucher"; "debit_card"]%string) ->
     (forall p, In p ["credit_card"; "boleto"; "voucher"; "debit_card"]%string ->
        In p (map payment_type t)) ->
     map slice wedges
     = [("lightcoral", "boleto"); ("lightskyblue", "credit_card");
        ("lightpink", "debit_card"); ("lightseagreen", "voucher")]%string).
Proof.
  intros L. pose proof (payment_run w datas t L) as Run.
  rewrite (emitted_app _ _ _ _ _ _ Run).
  exists (payment_wedges t). split; [reflexivity|]. split; [reflexivity|].
  assert (Lab : map wedge_label (payment_wedges t) = map fst (filtered_payment_type t))
    by apply wedges_labels.
  assert (Mem : forall p, In p (map fst (filtered_payment_type t)) <->
                          p <> "not_defined"%string /\ In p (map payment_type t)).
  { intros p. split.
    - intros J. apply in_map_iff in J. destruct J as [[p' n] [E J]]. cbn in E. subst p'.
      destruct (filtered_payment_type_spec t p n J) as [Dp [Ip _]]. auto.
    - intros [Dp Ip]. apply filtered_payment_type_complete; assumption. }
  rewrite Lab.
  split; [apply payment_groups_sorted|]. split; [exact Mem|].
  split; [|split; [|split; [split|]]].
  - intros wd J. apply wedges_values in J. destruct J as (J & _ & _).
    apply filtered_payment_type_spec in J. tauto.
  - intros i wd E. apply wedges_color in E. exact E.
  - intros E. rewrite <- Lab.
    apply (f_equal (map snd)) in E. rewrite map_map in E. exact E.
  - intros E. unfold payment_wedges.
    destruct (filtered_payment_type t) as [|[l1 n1] [|[l2 n2] [|[l3 n3] [|[l4 n4] [|]]]]];
      try discriminate.
    cbn in E. inversion E; subst. reflexivity.
  - intros Only All.
    assert (E : map fst (filtered_payment_type t)
                = ["boleto"; "credit_card"; "debit_card"; "voucher"]%string).
    { apply increasing_ext.
      - apply payment_groups_sorted.
      - unfold increasing. repeat constructor.
      - intros p. rewrite Mem. split.
        + intros [D I]. destruct (Only p I) as [->|J]; [congruence|].
          cbn in J |- *. tauto.
        + intros J. split.
          * cbn in J. intros ->.
            destruct J as [J|[J|[J|[J|[]]]]]; discriminate J.
          * apply All. cbn in J |- *. tauto. }
    unfold payment_wedges.
    destruct (filtered_payment_type t) as [|[l1 n1] [|[l2 n2] [|[l3 n3] [|[l4 n4] [|]]]]];
      try discriminate.
    cbn in E. inversion E; subst. reflexivity.
Qed.

Lemma legend_is_fixed_slices_follow_groups_witness :
  nth_error (heap (canon seven_payments)) 0 = Some seven_payments /\
  exists wedges,
    legend_of (emitted (display_payment_distribution 0%nat) (canon seven_payments))
    = legend /\
    pie_of (emitted (display_payment_distribution 0%nat) (canon seven_payments))
    = Some wedges /\
    map slice wedges
    = [("lightcoral", "boleto"); ("lightskyblue", "credit_card");
       ("lightpink", "debit_card"); ("lightseagreen", "voucher")]%string.
Proof.
  split; [reflexivity|].
  destruct (legend_is_fixed_slices_follow_groups (canon seven_payments) 0%nat
              seven_payments eq_refl)
    as (wedges & Leg & P & _ & _ & _ & _ & _ & Four).
  exists wedges. split; [exact Leg|]. split; [exact P|].
  apply Four.
  - intros p I. right. cbn in I |- *.
    repeat (destruct I as [<-|I]; [tauto|]). destruct I.
  - intros p I. cbn in I |- *. tauto.
Defined.

(** With the groups in increasing order, that never happens: credit_card
    does not come before boleto. *)
Lemma slices_never_match_legend t :
  map fst (filtered_payment_type t)
  <> ["credit_card"; "boleto"; "voucher"; "debit_card"]%string.
Proof.
  intros E. pose proof (payment_groups_sorted t) as S. rewrite E in S.
  inversion S as [|? ? _ F]; subst. inversion F as [|? ? C _]; subst.
  discriminate C.
Qed.

(** In the weaker sense that every wedge has the colour the legend gives to
    its label, wedges and legend agree only for a pie with no wedge or with
    the one wedge credit_card. *)
Lemma wedges_agree_with_legend t :
  Forall (fun wd => In (slice wd) legend) (payment_wedges t) <->
  map fst (filtered_payment_type t) = [] \/
  map fst (filtered_payment_type t) = ["credit_card"]%string.
Proof.
  pose proof (payment_groups_sorted t) as S. unfold payment_wedges.
  destruct (filtered_payment_type t) as [|[l0 n0] [|[l1 n1] rest]]; cbn in *.
  - split; [auto | constructor].
  - split.
    + intros F. inversion F as [|? ? I _]; subst. right.
      destruct I as [E|[E|[E|[E|[]]]]]; inversion E. reflexivity.
    + intros [E|E]; [discriminate|]. inversion E; subst.
      constructor; [left; reflexivity | constructor].
  - split.
    + intros F. exfalso. inversion F as [|? ? I0 F1]; subst.
      inversion F1 as [|? ? I1 _]; subst.
      destruct I0 as [E|[E|[E|[E|[]]]]]; inversion E.
      destruct I1 as [E1|[E1|[E1|[E1|[]]]]]; inversion E1. subst.
      inversion S as [|? ? _ F']; subst. inversion F' as [|? ? C _]; subst.
      discriminate C.
    + intros [E|E]; discriminate.
Qed.

Lemma pie_shares_sum_to_one_witness :
  nth_error (heap sample_world) 0 = Some sample_table /\
  (exists r, In r sample_table /\ payment_type r <> "not_defined"%string) /\
  exists wedges,
    pie_of (emitted (display_payment_distribution 0%nat) sample_world) = Some wedges /\
    list_sum (map wedge_x wedges) = count_if defined_payment sample_table /\
    (exact_sum (map wedge_share wedges) == 1)%Q.
Proof.
  assert (D : exists r, In r sample_table /\ payment_type r <> "not_defined"%string).
  { eexists. split; [left; reflexivity | discriminate]. }
  split; [reflexivity|]. split; [exact D|].
  destruct (pie_shares_sum_to_one sample_world 0%nat sample_table eq_refl D)
    as (wedges & P & _ & _ & _ & X & _ & S).
  exists wedges. split; [exact P|]. split; [exact X | exact S].
Defined.

(** C4 as stated fails for what the pie shows: with 1, 2, 3 and 1 records
    of four payment types the wedges print 14.3%, 28.6%, 42.9% and 14.3%,
    which add up to 100.1%. *)
Lemma pie_percentages_add_to_100_1 :
  pie_of (emitted (display_payment_distribution 0%nat) (canon seven_payments))
  = Some (payment_wedges seven_payments) /\
  map wedge_text (payment_wedges seven_payments)
  = [Percent "%1.1f%%" 1 7; Percent "%1.1f%%" 2 7;
     Percent "%1.1f%%" 3 7; Percent "%1.1f%%" 1 7] /\
  map (fun wd => printed_tenths (wedge_text wd)) (payment_wedges seven_payments)
  = [143; 286; 429; 143] /\
  fold_right Z.add 0
    (map (fun wd => printed_tenths (wedge_text wd)) (payment_wedges seven_payments))
  = 1001 /\
  1001 <> 1000.
Proof.
  split; [reflexivity|]. split; [reflexivity|].
  split; [vm_compute; reflexivity|]. split; [vm_compute; reflexivity|]. lia.
Qed.

(** ** The orders-per-day panel *)

Lemma latest_year_max t y :
  parsed t = true ->
  (Series_max (map (fun r => year (day_of r)) t) = Some y <-> latest_year_is t y).
Proof.
  intros P. split.
  - intros E. apply Series_max_spec in E. destruct E as [I B]. split.
    + apply in_map_iff in I. destruct I as [r [E I]].
      exists r, (day_of r). split; [exact I|]. split; [|exact E].
      apply (parsed_purchased t r P I).
    + intros r d J E. rewrite (parsed_purchased t r P J) in E. inversion E; subst.
      apply B. apply in_map_iff. exists r. auto.
  - intros [[r [d [I [E Y]]]] B].
    destruct (Series_max_some (map (fun r => year (day_of r)) t)) as [m M].
    { destruct t; [destruct I | discriminate]. }
    rewrite M. f_equal. apply Series_max_spec in M. destruct M as [J C].
    rewrite (parsed_purchased t r P I) in E. inversion E; subst.
    apply in_map_iff in J. destruct J as [r' [<- J]].
    specialize (B r' _ J (parsed_purchased t r' P J)).
    specialize (C (year (day_of r))).
    assert (year (day_of r) <= year (day_of r')).
    { apply C. apply in_map_iff. exists r. auto. }
    lia.
Qed.

Lemma at_key_sizes {K} `{KeyOrd K} {R} (d : K) (gs : list (K * list R)) :
  at_key d (map (fun g => (fst g, List.length (snd g))) gs)
  = option_map (@List.length R) (at_key d gs).
Proof.
  induction gs as [|[k rs] gs IH]; cbn; [reflexivity|].
  destruct (keqb d k); [reflexivity | exact IH].
Qed.

Lemma count_combine {K} `{KeyOrd K} {R S} (k : R -> K) (g : R -> S) d X :
  List.length (filter (fun p => keqb (fst p) d) (combine (map k X) (map g X)))
  = count_if (fun r => keqb (k r) d) X.
Proof.
  unfold count_if. induction X as [|r X IH]; cbn; [reflexivity|].
  destruct (keqb (k r) d); cbn; congruence.
Qed.

(** A bar of [groupby(key).size()]: the number of rows of that key. *)
Lemma size_by_at_key {K} `{KeyOrd K} {R S} (k : R -> K) (g : R -> S) d X :
  at_key d (size_by (map k X) (map g X)) = bar (count_if (fun r => keqb (k r) d) X).
Proof.
  unfold size_by. rewrite at_key_sizes, at_key_groupby.
  rewrite <- (count_combine k g d X).
  destruct (filter _ (combine (map k X) (map g X))); reflexivity.
Qed.

Lemma size_by_NoDup {K} `{KeyOrd K} {R} (key : list K) (rows : list R) :
  NoDup (map fst (size_by key rows)).
Proof.
  unfold size_by. rewrite map_map. cbn [fst]. apply (groupby_NoDup fst).
Qed.

Lemma filter_and {A} (f g : A -> bool) l :
  filter f (filter g l) = filter (fun x => g x && f x) l.
Proof.
  induction l as [|a l IH]; cbn; [reflexivity|].
  destruct (g a); cbn; [destruct (f a)|]; congruence.
Qed.

Lemma chosen_count t y s e d :
  parsed t = true ->
  count_if (fun r => keqb (day_of r) d) (chosen y s e t)
  = count_if (fun r => in_selection y s e r && on_date d r) t.
Proof.
  intros P. unfold count_if, chosen. rewrite !filter_and. f_equal.
  apply filter_ext_in. intros r I.
  unfold in_selection, on_date, in_year, in_range.
  rewrite (parsed_purchased t r P I), !andb_assoc. reflexivity.
Qed.

Lemma date_leb_year a b : date_leb a b = true -> year a <= year b.
Proof.
  unfold date_leb, date_compare.
  destruct (Z.compare_spec (year a) (year b)); intros E; try lia; discriminate.
Qed.

Lemma admitted_count t y s e d :
  admits (selector y) s = true -> admits (selector y) e = true ->
  date_leb s d = true -> date_leb d e = true ->
  count_if (fun r => in_selection y s e r && on_date d r) t = count_if (on_date d) t.
Proof.
  unfold admits, selector. rewrite !andb_true_iff. intros [S1 _] [_ E2] Sd De.
  apply date_leb_year in S1, E2. pose proof (date_leb_year _ _ Sd).
  pose proof (date_leb_year _ _ De). cbn [year] in *.
  unfold count_if. f_equal. apply filter_ext. intros r.
  unfold in_selection, on_date. destruct (purchased r) as [d'|]; [|reflexivity].
  destruct (keqb d' d) eqn:K; [|apply andb_false_r].
  apply keqb_eq in K. subst d'. rewrite Sd, De.
  rewrite (proj2 (Z.eqb_eq (year d) y)) by lia. reflexivity.
Qed.

(** On a table with no record there is no latest year: the routine raises
    before it shows anything. *)
Lemma orders_run_empty w datas picked :
  nth_error (heap w) datas = Some [] ->
  display_orders_per_day_latest_year datas picked w
  = (inl ValueError, mkWorld (heap w ++ [[]]) (figures w) (page w)).
Proof.
  intros L. open_routine.
  repeat first [ lstep | progress (cbn [map all_some Series_max List.length Nat.eqb select]; tidy) ].
  reflexivity.
Qed.

Lemma empty_or_latest t :
  t = [] \/ exists y, Series_max (map (fun r => year (day_of r)) t) = Some y.
Proof.
  destruct t as [|r t]; [left; reflexivity | right].
  apply Series_max_some. discriminate.
Qed.

Lemma emitted_nothing {A} (m : M A) w r h f :
  m w = (r, mkWorld h f (page w)) -> emitted m w = [].
Proof.
  intros E. apply (emitted_app m w r h f []). rewrite app_nil_r. exact E.
Qed.

(** C6.  For a loaded table and a selected range [s, e]: the selector the
    routine shows admits the dates from January 1 to December 31 of the
    latest purchase year [y], and no other; the chart it shows has one bar
    per date, and the bar of a date [d] counts the records purchased in year
    [y] on a date between [s] and [e] that is [d] (no bar when there is
    none).  A table with a record gets both. *)
Theorem selector_and_chart_follow_latest_year w datas t s e :
  nth_error (heap w) datas = Some t -> parsed t = true ->
  let out := emitted (display_orders_per_day_latest_year datas [s; e]) w in
  (t <> [] -> exists sel bars, selector_of out = Some sel /\ chart_of out = Some bars) /\
  (forall sel, selector_of out = Some sel ->
     exists y, latest_year_is t y /\
       forall d, admits sel d = true <->
                 date_leb (mkDate y 1 1) d = true /\ date_leb d (mkDate y 12 31) = true) /\
  (forall bars, chart_of out = Some bars ->
     exists y, latest_year_is t y /\
       NoDup (map fst bars) /\
       forall d, at_key d bars
                 = bar (count_if (fun r => in_selection y s e r && on_date d r) t)).
Proof.
  intros L P out. subst out. destruct (empty_or_latest t) as [->|[y Y]].
  - rewrite (emitted_nothing _ _ _ _ _ (orders_run_empty w datas [s; e] L)).
    split; [congruence|]. split; intros x E; discriminate E.
  - pose proof (orders_run w datas t s e [] y L P Y) as Run.
    rewrite (emitted_app _ _ _ _ _ _ Run).
    assert (Ly : latest_year_is t y) by (apply latest_year_max; assumption).
    split; [intros _; eexists; eexists; split; reflexivity|]. split.
    + intros sel E. injection E as <-. exists y. split; [exact Ly|].
      intros d. cbn [admits selector]. apply andb_true_iff.
    + intros bars E. injection E as <-. exists y. split; [exact Ly|]. split.
      * apply size_by_NoDup.
      * intros d. rewrite size_by_at_key. f_equal. apply chosen_count, P.
Qed.

Lemma selector_and_chart_follow_latest_year_witness :
  nth_error (heap sample_world) 0 = Some sample_table /\
  parsed sample_table = true /\
  exists sel bars,
    selector_of (emitted (display_orders_per_day_latest_year 0%nat
                            [mkDate 2018 3 1; mkDate 2018 3 31]) sample_world)
    = Some sel /\
    chart_of (emitted (display_orders_per_day_latest_year 0%nat
                         [mkDate 2018 3 1; mkDate 2018 3 31]) sample_world) = Some bars.
Proof.
  assert (N : sample_table <> []) by discriminate.
  split; [reflexivity|]. split; [reflexivity|].
  apply (selector_and_chart_follow_latest_year sample_world 0%nat sample_table
           (mkDate 2018 3 1) (mkDate 2018 3 31) eq_refl eq_refl).
  exact N.
Defined.

(** C8.  For a loaded table and a date [d] of a selected range [s, e] that
    the selector shown admits, the bar of [d] is the number of records of the
    table purchased on [d]; and that number is the sum, over the distinct
    order ids, of the number of records of the order purchased on [d]: an
    order with [k] records on that date adds [k] to the bar.  A table with a
    record gets its selector and its chart. *)
Theorem bars_count_records w datas t s e d :
  nth_error (heap w) datas = Some t -> parsed t = true ->
  let out := emitted (display_orders_per_day_latest_year datas [s; e]) w in
  (t <> [] -> exists sel bars, selector_of out = Some sel /\ chart_of out = Some bars) /\
  (forall sel bars,
     selector_of out = Some sel -> chart_of out = Some bars ->
     admits sel s = true -> admits sel e = true ->
     date_leb s d = true -> date_leb d e = true ->
     at_key d bars = bar (count_if (on_date d) t)) /\
  count_if (on_date d) t
  = list_sum (map (fun o => count_if (fun r => of_order o r && on_date d r) t)
                  (nodup string_dec (map order_id t))).
Proof.
  intros L P out. subst out. split; [|split].
  - intros N. destruct (empty_or_latest t) as [->|[y Y]]; [congruence|].
    rewrite (emitted_app _ _ _ _ _ _ (orders_run w datas t s e [] y L P Y)).
    eexists. eexists. split; reflexivity.
  - destruct (empty_or_latest t) as [->|[y Y]].
    + rewrite (emitted_nothing _ _ _ _ _ (orders_run_empty w datas [s; e] L)).
      intros sel bars E. discriminate E.
    + rewrite (emitted_app _ _ _ _ _ _ (orders_run w datas t s e [] y L P Y)).
      intros sel bars Es Eb As Ae Sd De. injection Es as <-. injection Eb as <-.
      rewrite size_by_at_key. f_equal.
      rewrite chosen_count by exact P. apply admitted_count; assumption.
  - symmetry. apply (count_by_key order_id String.eqb String.eqb_eq).
    + apply NoDup_nodup.
    + intros r I. apply nodup_In, in_map, I.
Qed.

Lemma bars_count_records_witness :
  nth_error (heap sample_world) 0 = Some sample_table /\
  parsed sample_table = true /\
  exists bars,
    chart_of (emitted (display_orders_per_day_latest_year 0%nat
                         [mkDate 2018 1 1; mkDate 2018 12 31]) sample_world) = Some bars /\
    at_key (mkDate 2018 3 1) bars = Some 2%nat.
Proof.
  assert (N : sample_table <> []) by discriminate.
  split; [reflexivity|]. split; [reflexivity|].
  destruct (bars_count_records sample_world 0%nat sample_table
              (mkDate 2018 1 1) (mkDate 2018 12 31) (mkDate 2018 3 1) eq_refl eq_refl)
    as [Shown [Bar _]].
  destruct (Shown N) as [sel [bars [Es Eb]]].
  exists bars. split; [exact Eb|].
  rewrite (Bar sel bars Es Eb); [reflexivity | | | reflexivity | reflexivity].
  - vm_compute in Es. injection Es as <-. reflexivity.
  - vm_compute in Es. injection Es as <-. reflexivity.
Defined.

(** C9.  The routine reads positions 0 and 1 of the selection unchecked.  On
    a loaded table it ends normally exactly when the table has a record and
    the selection has two dates.  With a selection of one date it always
    fails and shows no chart; when the table has a record it shows the
    selector first, and the failure is the IndexError of position 1. *)
Theorem one_date_selection_fails w datas t :
  nth_error (heap w) datas = Some t -> parsed t = true ->
  (forall picked,
     fst (display_orders_per_day_latest_year datas picked w) = inr tt
     <-> t <> [] /\ (2 <= List.length picked)%nat) /\
  (forall d,
     (exists e, fst (display_orders_per_day_latest_year datas [d] w) = inl e) /\
     chart_of (emitted (display_orders_per_day_latest_year datas [d]) w) = None /\
     (t <> [] ->
      fst (display_orders_per_day_latest_year datas [d] w) = inl IndexError /\
      exists sel,
        selector_of (emitted (display_orders_per_day_latest_year datas [d]) w)
        = Some sel)).
Proof.
  intros L P. destruct (empty_or_latest t) as [->|[y Y]].
  - split.
    + intros picked. rewrite (orders_run_empty w datas picked L). cbn [fst].
      split; [discriminate | intros [N _]; congruence].
    + intros d. rewrite (emitted_nothing _ _ _ _ _ (orders_run_empty w datas [d] L)),
        (orders_run_empty w datas [d] L).
      split; [eexists; reflexivity|]. split; [reflexivity | congruence].
  - assert (N : t <> []) by (intros ->; discriminate Y).
    split.
    + intros [|s [|e rest]].
      * rewrite (orders_run_none w datas t y L P Y). cbn.
        split; [discriminate | intros [_ Le]; lia].
      * rewrite (orders_run_one w datas t s y L P Y). cbn.
        split; [discriminate | intros [_ Le]; lia].
      * rewrite (orders_run w datas t s e rest y L P Y). cbn.
        split; [intros _; split; [exact N | lia] | reflexivity].
    + intros d. pose proof (orders_run_one w datas t d y L P Y) as Run.
      rewrite (emitted_app _ _ _ _ _ _ Run), Run.
      split; [eexists; reflexivity|]. split; [reflexivity|].
      intros _. split; [reflexivity | eexists; reflexivity].
Qed.

Lemma one_date_selection_fails_witness :
  nth_error (heap sample_world) 0 = Some sample_table /\
  parsed sample_table = true /\
  fst (display_orders_per_day_latest_year 0%nat [mkDate 2018 3 1] sample_world)
  = inl IndexError.
Proof.
  assert (N : sample_table <> []) by discriminate.
  split; [reflexivity|]. split; [reflexivity|].
  apply (one_date_selection_fails sample_world 0%nat sample_table eq_refl eq_refl).
  exact N.
Defined.

(** * Further properties *)

(** ** Loading the file *)

Lemma all_some_none {A B} (f : A -> option B) l :
  all_some (map f l) = None <-> exists a, In a l /\ f a = None.
Proof.
  induction l as [|a l IH]; cbn.
  - split; [discriminate | intros [a [[] _]]].
  - destruct (f a) as [b|] eqn:E.
    + destruct (all_some (map f l)) as [r|].
      * split; [discriminate|]. intros [x [[<-|I] N]]; [congruence|].
        discriminate (proj2 IH (ex_intro _ x (conj I N))).
      * split; [|reflexivity]. intros _. destruct (proj1 IH eq_refl) as [x [I N]].
        exists x. auto.
    + split; [|reflexivity]. intros _. exists a. auto.
Qed.

Lemma load_result file :
  (exists t, forall w,
     module_init file w
     = (inr (List.length (heap w)), mkWorld (heap w ++ [t]) (figures w) (page w))) \/
  (exists frames, forall w,
     module_init file w
     = (inl ValueError, mkWorld (heap w ++ frames) (figures w) (page w))).
Proof.
  destruct (all_some (map to_datetime_cell (map order_purchase_timestamp file)))
    as [p|] eqn:Ep.
  - pose proof (fun w => module_init_run file w p Ep) as Run. cbv zeta in Run.
    destruct (all_some _) as [d|] in Run.
    + left. eexists. intros w. apply Run.
    + right. eexists. intros w. apply Run.
  - right. exists [file]. intros w. apply (module_init_stops file w Ep).
Qed.

(** ** The KPIs on edge tables *)

Lemma kpis_run_nan {Fl : Float64} w datas t :
  nth_error (heap w) datas = Some t ->
  Series_mean (map snd (order_totals t)) = None ->
  display_dashboard_kpis datas w = (inl ValueError, w).
Proof.
  intros L E. open_routine. repeat lstep. rewrite E. tidy. repeat lstep.
  first [reflexivity | finish].
Qed.

Lemma main_run_nan {Fl : Float64} w datas picked t :
  nth_error (heap w) datas = Some t ->
  Series_mean (map snd (order_totals t)) = None ->
  main datas picked w
  = (inl ValueError,
     mkWorld (heap w) (figures w) (page w ++ [Title (Lit "Sales Dashboard ✨")])).
Proof.
  intros L E. unfold main, st_title. lstep.
  apply bind_fail. apply (kpis_run_nan _ datas t); [exact L | exact E].
Qed.

(** X3.  The KPI routine ends normally exactly when the table has a record.
    On a table with no record the mean of no order is NaN and [round] raises
    ValueError before anything is shown: the state is left as it was. *)
Theorem kpis_need_a_record {Fl : Float64} w datas t :
  nth_error (heap w) datas = Some t ->
  (fst (display_dashboard_kpis datas w) = inr tt <-> t <> []) /\
  (t = [] -> display_dashboard_kpis datas w = (inl ValueError, w)).
Proof.
  intros L. split.
  - destruct t as [|r t].
    + rewrite (kpis_run_nan w datas [] L eq_refl). cbn. split; [discriminate | congruence].
    + destruct (mean_of_order_totals (r :: t)) as [q M]; [discriminate|].
      rewrite (kpis_run w datas _ q L M). cbn. split; [discriminate | reflexivity].
  - intros ->. apply (kpis_run_nan w datas [] L eq_refl).
Qed.

Lemma kpis_need_a_record_witness :
  nth_error (heap (canon [])) 0 = Some [] /\
  display_dashboard_kpis (F := binary64) 0%nat (canon []) = (inl ValueError, canon []).
Proof.
  split; [reflexivity|].
  apply (kpis_need_a_record (Fl := binary64) (canon []) 0%nat [] eq_refl). reflexivity.
Defined.

(** ** Total Orders *)

Lemma nodup_length_le {A} (dec : forall a b : A, {a = b} + {a <> b}) l :
  (List.length (nodup dec l) <= List.length l)%nat.
Proof.
  induction l as [|a l IH]; cbn; [lia|].
  destruct (in_dec dec a l); cbn; lia.
Qed.

Lemma nodup_length_eq {A} (dec : forall a b : A, {a = b} + {a <> b}) l :
  List.length (nodup dec l) = List.length l <-> NoDup l.
Proof.
  split.
  - induction l as [|a l IH]; cbn; [constructor|].
    destruct (in_dec dec a l) as [I|N]; cbn; intros E.
    + pose proof (nodup_length_le dec l). lia.
    + constructor; [exact N | apply IH; lia].
  - intros N. rewrite (nodup_fixed_point dec N). reflexivity.
Qed.

(** X4.  Total Orders shows the number of distinct order ids, with digit
    grouping: at least 1 and at most the number of records, and equal to the
    number of records exactly when no two records share an order id. *)
Theorem total_orders_counts_distinct_ids {Fl : Float64} w datas t :
  nth_error (heap w) datas = Some t -> t <> [] ->
  shown_under "Total Orders" (emitted (display_dashboard_kpis datas) w)
  = Some (Grouped (number_of_orders t)) /\
  (1 <= number_of_orders t <= List.length t)%nat /\
  (number_of_orders t = List.length t <-> NoDup (map order_id t)).
Proof.
  intros L N. destruct (mean_of_order_totals t N) as [q M].
  rewrite (emitted_app _ _ _ _ _ _ (kpis_run w datas t q L M)).
  split; [reflexivity|]. unfold number_of_orders, nunique. split; [split|].
  - destruct t as [|r t]; [congruence|].
    assert (I : In (order_id r) (nodup string_dec (map order_id (r :: t))))
      by (apply nodup_In; left; reflexivity).
    destruct (nodup string_dec (map order_id (r :: t))); [destruct I | cbn; lia].
  - rewrite <- (length_map order_id t). apply nodup_length_le.
  - rewrite <- (length_map order_id t). apply nodup_length_eq.
Qed.

Lemma total_orders_counts_distinct_ids_witness :
  nth_error (heap sample_world) 0 = Some sample_table /\
  sample_table <> [] /\
  shown_under "Total Orders" (emitted (display_dashboard_kpis (F := binary64) 0%nat) sample_world)
  = Some (Grouped 4).
Proof.
  assert (N : sample_table <> []) by discriminate.
  split; [reflexivity|]. split; [exact N|].
  apply (total_orders_counts_distinct_ids (Fl := binary64) sample_world 0%nat sample_table eq_refl N).
Defined.

(** ** main, panel by panel *)

Lemma with_column_run {A} i (body : M A) w r w' :
  body (mkWorld (heap w) (figures w) []) = (r, w') ->
  with_column i body w
  = (r, mkWorld (heap w') (figures w') (page w ++ map (InColumn i) (page w'))).
Proof. intros E. unfold with_column. rewrite E. reflexivity. Qed.

Lemma main_run {Fl : Float64} w datas t q s e rest y :
  nth_error (heap w) datas = Some t ->
  parsed t = true ->
  Series_mean (map snd (order_totals t)) = Some q ->
  Series_max (map (fun r => year (day_of r)) t) = Some y ->
  main datas (s :: e :: rest) w
  = (inr tt,
     mkWorld (heap w ++ [map with_date (filter (in_year y) t);
                         map with_date (chosen y s e t)])
             (payment_figure t :: demographic_figure t :: figures w)
             (page w ++
              Title (Lit "Sales Dashboard ✨")
              :: kpi_panel (total_sales_revenue t) (round_half_even q) (number_of_orders t)
              ++ [selector y;
                  Title (Fstr "Number of Orders per Day in " y);
                  BarChart (size_by (map day_of (chosen y s e t))
                                    (map with_date (chosen y s e t))) 400]
              ++ lower_panels [Pyplot (demographic_figure t)] (payment_panel t))).
Proof.
  intros L P Mn Mx. unfold main, st_title, st_columns, st_subheader. lstep.
  erewrite bind_run by (apply (kpis_run _ datas t q); [lookup | exact Mn]). tidy.
  erewrite bind_run by (apply (orders_run _ datas t s e rest y); [lookup | exact P | exact Mx]).
  tidy. lstep.
  erewrite bind_run.
  2:{ apply with_column_run. tidy. lstep.
      apply (demographic_run _ datas t). lookup. }
  tidy.
  erewrite with_column_run.
  2:{ tidy. lstep. apply (payment_run _ datas t). lookup. }
  tidy. unfold lower_panels. cbn [map app].
  repeat (rewrite <- app_assoc; cbn [app]). reflexivity.
Qed.

Lemma main_run_short {Fl : Float64} w datas t q picked y :
  nth_error (heap w) datas = Some t ->
  parsed t = true ->
  Series_mean (map snd (order_totals t)) = Some q ->
  Series_max (map (fun r => year (day_of r)) t) = Some y ->
  (List.length picked < 2)%nat ->
  main datas picked w
  = (inl IndexError,
     mkWorld (heap w ++ [map with_date (filter (in_year y) t)]) (figures w)
             (page w ++
              Title (Lit "Sales Dashboard ✨")
              :: kpi_panel (total_sales_revenue t) (round_half_even q) (number_of_orders t)
              ++ [selector y])).
Proof.
  intros L P Mn Mx Short. unfold main, st_title. lstep.
  erewrite bind_run by (apply (kpis_run _ datas t q); [lookup | exact Mn]). tidy.
  erewrite bind_fail.
  2:{ destruct picked as [|d [|d' picked]]; [| |cbn in Short; lia].
      - apply (orders_run_none _ datas t y); [lookup | exact P | exact Mx].
      - apply (orders_run_one _ datas t d y); [lookup | exact P | exact Mx]. }
  tidy. repeat (rewrite <- app_assoc; cbn [app]). reflexivity.
Qed.

(** X6.  With a loaded table that has a record and a selection of two dates,
    [main] ends normally, and its page is the title followed by what the
    four routines show, each exactly as it shows it when run alone on the
    table: the KPIs, the orders per day, then two columns with the
    demographic plot and the payment panel under their headings. *)
Theorem main_juxtaposes_the_panels {Fl : Float64} w datas t picked :
  nth_error (heap w) datas = Some t -> parsed t = true -> t <> [] ->
  (2 <= List.length picked)%nat ->
  fst (main datas picked w) = inr tt /\
  emitted (main datas picked) w
  = Title (Lit "Sales Dashboard ✨")
    :: emitted (display_dashboard_kpis datas) w
    ++ emitted (display_orders_per_day_latest_year datas picked) w
    ++ lower_panels (emitted (display_customer_demographic datas) w)
                    (emitted (display_payment_distribution datas) w).
Proof.
  intros L P N Two.
  destruct picked as [|s [|e rest]]; [cbn in Two; lia | cbn in Two; lia |].
  destruct (mean_of_order_totals t N) as [q Mn].
  destruct (empty_or_latest t) as [E|[y Mx]]; [contradiction|].
  pose proof (main_run w datas t q s e rest y L P Mn Mx) as Run.
  split; [rewrite Run; reflexivity|].
  rewrite (emitted_app _ _ _ _ _ _ Run).
  rewrite (emitted_app _ _ _ _ _ _ (kpis_run w datas t q L Mn)).
  rewrite (emitted_app _ _ _ _ _ _ (orders_run w datas t s e rest y L P Mx)).
  rewrite (emitted_app _ _ _ _ _ _ (demographic_run w datas t L)).
  rewrite (emitted_app _ _ _ _ _ _ (payment_run w datas t L)).
  reflexivity.
Qed.

Lemma main_juxtaposes_the_panels_witness :
  nth_error (heap sample_world) 0 = Some sample_table /\
  parsed sample_table = true /\ sample_table <> [] /\
  fst (main (F := binary64) 0%nat [mkDate 2018 1 1; mkDate 2018 12 31] sample_world) = inr tt.
Proof.
  assert (N : sample_table <> []) by discriminate.
  split; [reflexivity|]. split; [reflexivity|]. split; [exact N|].
  apply (main_juxtaposes_the_panels (Fl := binary64) sample_world 0%nat sample_table
           [mkDate 2018 1 1; mkDate 2018 12 31] eq_refl eq_refl N).
  cbn. lia.
Defined.

(** ** How main ends *)

(** X7.  How a run of [main] on a loaded table ends.  It ends normally
    exactly when the table has a record and at least two dates are selected.
    Otherwise it stops at the first error: ValueError after the title alone
    when the table has no record; IndexError after the KPIs and the selector
    when fewer than two dates are selected, and then no chart, bar plot or
    pie is shown and no figure is made. *)
Theorem main_outcomes {Fl : Float64} w datas t picked :
  nth_error (heap w) datas = Some t -> parsed t = true ->
  (fst (main datas picked w) = inr tt <-> t <> [] /\ (2 <= List.length picked)%nat) /\
  (t = [] ->
   fst (main datas picked w) = inl ValueError /\
   emitted (main datas picked) w = [Title (Lit "Sales Dashboard ✨")] /\
   figures (snd (main datas picked w)) = figures w) /\
  (t <> [] -> (List.length picked < 2)%nat ->
   fst (main datas picked w) = inl IndexError /\
   emitted (main datas picked) w
   = Title (Lit "Sales Dashboard ✨")
     :: emitted (display_dashboard_kpis datas) w
     ++ emitted (display_orders_per_day_latest_year datas picked) w /\
   (exists sel, selector_of (emitted (main datas picked) w) = Some sel) /\
   chart_of (emitted (main datas picked) w) = None /\
   bars_of (emitted (main datas picked) w) = None /\
   pie_of (emitted (main datas picked) w) = None /\
   figures (snd (main datas picked w)) = figures w).
Proof.
  intros L P. destruct t as [|r0 t0].
  - pose proof (main_run_nan w datas picked [] L eq_refl) as Run.
    rewrite Run, (emitted_app _ _ _ _ _ _ Run). cbn [fst snd figures].
    split; [split; [discriminate | intros [N _]; congruence]|].
    split; [auto | congruence].
  - set (t := r0 :: t0) in *. assert (N : t <> []) by discriminate.
    destruct (mean_of_order_totals t N) as [q Mn].
    destruct (empty_or_latest t) as [E|[y Mx]]; [contradiction|].
    destruct (le_lt_dec 2 (List.length picked)) as [Two|Short].
    + assert (Run : fst (main datas picked w) = inr tt).
      { destruct picked as [|s [|e rest]]; [cbn in Two; lia | cbn in Two; lia |].
        rewrite (main_run w datas t q s e rest y L P Mn Mx). reflexivity. }
      split; [split; [auto | intros _; exact Run]|].
      split; [congruence | intros _ Short; lia].
    + pose proof (main_run_short w datas t q picked y L P Mn Mx Short) as Run.
      assert (Or : emitted (display_orders_per_day_latest_year datas picked) w
                   = [selector y]).
      { destruct picked as [|d [|d' picked]]; [| |cbn in Short; lia].
        - apply (emitted_app _ _ _ _ _ _ (orders_run_none w datas t y L P Mx)).
        - apply (emitted_app _ _ _ _ _ _ (orders_run_one w datas t d y L P Mx)). }
      rewrite Run, (emitted_app _ _ _ _ _ _ Run), Or,
        (emitted_app _ _ _ _ _ _ (kpis_run w datas t q L Mn)).
      cbn [fst snd figures].
      split; [split; [discriminate | intros [_ Two]; lia]|].
      split; [congruence|]. intros _ _.
      repeat split; try reflexivity. eexists. reflexivity.
Qed.

Lemma main_outcomes_witness :
  nth_error (heap sample_world) 0%nat = Some sample_table /\
  parsed sample_table = true /\
  fst (main (F := binary64) 0%nat [mkDate 2018 3 1] sample_world) = inl IndexError /\
  pie_of (emitted (main (F := binary64) 0%nat [mkDate 2018 3 1]) sample_world) = None.
Proof.
  assert (N : sample_table <> []) by discriminate.
  split; [reflexivity|]. split; [reflexivity|].
  destruct (main_outcomes (Fl := binary64) sample_world 0%nat sample_table
              [mkDate 2018 3 1] eq_refl eq_refl) as (_ & _ & Short).
  destruct (Short N) as (E & _ & _ & _ & _ & Pi & _); [cbn; lia|].
  split; [exact E | exact Pi].
Defined.

(** ** Nothing is removed or rewritten *)

Lemma extends_refl w : extends w w.
Proof. exists [], [], []. rewrite !app_nil_r. auto. Qed.

Lemma extends_trans w1 w2 w3 : extends w1 w2 -> extends w2 w3 -> extends w1 w3.
Proof.
  intros (h & f & p & H1 & F1 & P1) (h' & f' & p' & H2 & F2 & P2).
  exists (h ++ h'), (f' ++ f), (p ++ p').
  rewrite H2, F2, P2, H1, F1, P1, !app_assoc. auto.
Qed.

Lemma grows_bind {A B} (m : M A) (k : A -> M B) :
  grows m -> (forall a, grows (k a)) -> grows (bind m k).
Proof.
  intros Hm Hk w. unfold bind. specialize (Hm w).
  destruct (m w) as [[e|a] w']; cbn [snd] in *; [exact Hm|].
  eapply extends_trans; [exact Hm | apply Hk].
Qed.

Lemma grows_emit e : grows (emit e).
Proof. intros w. exists [], [], [e]. cbn. rewrite app_nil_r. auto. Qed.

Lemma grows_with_column {A} i (body : M A) : grows body -> grows (with_column i body).
Proof.
  intros Hb w. unfold with_column.
  specialize (Hb (mkWorld (heap w) (figures w) [])).
  destruct (body _) as [r w']. cbn [snd heap figures page] in *.
  destruct Hb as (h & f & p & H & F & P).
  exists h, f, (map (InColumn i) (page w')). cbn [heap figures page]. auto.
Qed.

Lemma grows_relocate {A} (m : M A) w (rw : (Exn + A) * World) :
  m w = relocate w rw -> extends w (snd (m w)).
Proof.
  intros ->. unfold relocate. cbn [snd].
  exists (tl (heap (snd rw))), (figures (snd rw)), (page (snd rw)).
  cbn [heap figures page]. auto.
Qed.

Lemma kpis_grows {Fl : Float64} datas : grows (display_dashboard_kpis datas).
Proof.
  intros w. destruct (nth_error (heap w) datas) as [t|] eqn:L.
  - apply (grows_relocate _ _ _ (kpis_local w datas t L)).
  - rewrite (kpis_absent w datas L). apply extends_refl.
Qed.

Lemma orders_grows datas picked : grows (display_orders_per_day_latest_year datas picked).
Proof.
  intros w. destruct (nth_error (heap w) datas) as [t|] eqn:L.
  - apply (grows_relocate _ _ _ (orders_local w datas t picked L)).
  - rewrite (orders_absent w datas picked L). apply extends_refl.
Qed.

Lemma demographic_grows datas : grows (display_customer_demographic datas).
Proof.
  intros w. destruct (nth_error (heap w) datas) as [t|] eqn:L.
  - apply (grows_relocate _ _ _ (demographic_local w datas t L)).
  - rewrite (demographic_absent w datas L). apply extends_refl.
Qed.

Lemma payment_grows datas : grows (display_payment_distribution datas).
Proof.
  intros w. destruct (nth_error (heap w) datas) as [t|] eqn:L.
  - apply (grows_relocate _ _ _ (payment_local w datas t L)).
  - rewrite (payment_absent w datas L). apply extends_refl.
Qed.

Lemma main_grows {Fl : Float64} datas picked : grows (main datas picked).
Proof.
  unfold main, st_title, st_columns, st_subheader.
  repeat lazymatch goal with
    | |- grows (bind _ _) => apply grows_bind; [|intros _]
    | |- grows (with_column _ _) => apply grows_with_column
    | |- grows (emit _) => apply grows_emit
    | |- grows (display_dashboard_kpis _) => apply kpis_grows
    | |- grows (display_orders_per_day_latest_year _ _) => apply orders_grows
    | |- grows (display_customer_demographic _) => apply demographic_grows
    | |- grows (display_payment_distribution _) => apply payment_grows
    end.
Qed.

Lemma load_grows file : grows (module_init file).
Proof.
  intros w. destruct (load_result file) as [[t R]|[h R]]; rewrite R; cbn [snd].
  - exists [t], [], []. cbn. rewrite app_nil_r. auto.
  - exists h, [], []. cbn. rewrite app_nil_r. auto.
Qed.

(** X8.  Nothing is ever removed or rewritten: whatever the state and however
    the run ends, the load, each display routine and [main] leave every
    earlier frame, every earlier figure and everything already on the page
    in place, and only add after them (figures: on top). *)
Theorem runs_only_add {Fl : Float64} file datas picked w :
  extends w (snd (module_init file w)) /\
  extends w (snd (display_dashboard_kpis datas w)) /\
  extends w (snd (display_orders_per_day_latest_year datas picked w)) /\
  extends w (snd (display_customer_demographic datas w)) /\
  extends w (snd (display_payment_distribution datas w)) /\
  extends w (snd (main datas picked w)) /\
  extends w (snd (script file picked w)).
Proof.
  split; [apply load_grows|]. split; [apply kpis_grows|]. split; [apply orders_grows|].
  split; [apply demographic_grows|]. split; [apply payment_grows|].
  split; [apply main_grows|].
  apply (grows_bind (module_init file) (fun d => main d picked)).
  - apply load_grows.
  - intros d. apply main_grows.
Qed.

(** ** The figure stack *)

Lemma draws_nothing_bind {A B} (m : M A) (k : A -> M B) :
  draws_nothing m -> (forall a, draws_nothing (k a)) -> draws_nothing (bind m k).
Proof.
  intros Hm Hk w. unfold bind. specialize (Hm w).
  destruct (m w) as [[e|a] w']; cbn [snd] in *; [exact Hm|].
  rewrite Hk. exact Hm.
Qed.

Lemma draws_nothing_load l : draws_nothing (load l).
Proof. intros w. unfold load. destruct (nth_error _ _); reflexivity. Qed.

Lemma draws_nothing_lift {A} e (o : option A) : draws_nothing (lift e o).
Proof. intros w. destruct o; reflexivity. Qed.

Lemma draws_nothing_emit e : draws_nothing (emit e).
Proof. intros w. reflexivity. Qed.

Lemma draws_nothing_with_column {A} i (body : M A) :
  draws_nothing body -> draws_nothing (with_column i body).
Proof.
  intros Hb w. unfold with_column.
  specialize (Hb (mkWorld (heap w) (figures w) [])).
  destruct (body _) as [r w']. exact Hb.
Qed.

Lemma draws_nothing_getitem_mask l mask : draws_nothing (getitem_mask l mask).
Proof.
  apply draws_nothing_bind; [apply draws_nothing_load|]. intros df w.
  destruct (Nat.eqb _ _); reflexivity.
Qed.

Lemma draws_nothing_setitem {C} (set : C -> Row -> Row) l s :
  draws_nothing (setitem set l s).
Proof.
  apply draws_nothing_bind; [apply draws_nothing_load|]. intros df w.
  destruct (Nat.eqb _ _); reflexivity.
Qed.

Lemma draws_nothing_fstring latest suffix :
  draws_nothing (to_datetime_fstring latest suffix).
Proof. intros w. destruct latest; [apply draws_nothing_lift | reflexivity]. Qed.

Lemma draws_nothing_py_round x : draws_nothing (py_round x).
Proof. intros w. destruct x; reflexivity. Qed.

Ltac quiet :=
  repeat lazymatch goal with
    | |- draws_nothing (bind _ _) => apply draws_nothing_bind; [|intros ?]
    | |- draws_nothing (with_column _ _) => apply draws_nothing_with_column
    | |- draws_nothing (emit _) => apply draws_nothing_emit
    | |- draws_nothing (load _) => apply draws_nothing_load
    | |- draws_nothing (lift _ _) => apply draws_nothing_lift
    | |- draws_nothing (getitem_mask _ _) => apply draws_nothing_getitem_mask
    | |- draws_nothing (setitem _ _ _) => apply draws_nothing_setitem
    | |- draws_nothing (to_datetime_fstring _ _) => apply draws_nothing_fstring
    | |- draws_nothing (py_round _) => apply draws_nothing_py_round
    | |- draws_nothing (ret _) => intros ?; reflexivity
    | |- draws_nothing (match ?x with _ => _ end) => destruct x
    end.

Lemma kpis_draw_nothing {Fl : Float64} datas : draws_nothing (display_dashboard_kpis datas).
Proof.
  cbv [display_dashboard_kpis kpi_column st_columns st_markdown st_subheader]. quiet.
Qed.

Lemma orders_draw_nothing datas picked :
  draws_nothing (display_orders_per_day_latest_year datas picked).
Proof.
  cbv [display_orders_per_day_latest_year dt index getitem_order_purchase_date
       st_date_input st_title st_bar_chart]. quiet.
Qed.

Lemma bind_ok {A B} (m : M A) (k : A -> M B) w b :
  fst (bind m k w) = inr b ->
  exists a w', m w = (inr a, w') /\ bind m k w = k a w'.
Proof.
  unfold bind. destruct (m w) as [[e|a] w']; cbn [fst]; [discriminate|].
  intros _. exists a, w'. auto.
Qed.

Lemma lower_run w datas t :
  nth_error (heap w) datas = Some t ->
  (st_columns [1; 1]%nat ;;
   with_column 0
     (st_subheader (Lit "Customer Demographic") ;;
      display_customer_demographic datas) ;;
   with_column 1
     (st_subheader (Lit "Payment Method") ;;
      display_payment_distribution datas)) w
  = (inr tt,
     mkWorld (heap w) (payment_figure t :: demographic_figure t :: figures w)
             (page w ++ lower_panels [Pyplot (demographic_figure t)] (payment_panel t))).
Proof.
  intros L. unfold st_columns, st_subheader. lstep.
  erewrite bind_run.
  2:{ apply with_column_run. tidy. lstep. apply (demographic_run _ datas t). lookup. }
  tidy.
  erewrite with_column_run.
  2:{ tidy. lstep. apply (payment_run _ datas t). lookup. }
  tidy. unfold lower_panels. cbn [map app].
  repeat (rewrite <- app_assoc; cbn [app]). reflexivity.
Qed.

Lemma main_figures {Fl : Float64} w datas t picked :
  nth_error (heap w) datas = Some t ->
  fst (main datas picked w) = inr tt ->
  figures (snd (main datas picked w))
  = payment_figure t :: demographic_figure t :: figures w.
Proof.
  intros L. unfold main, st_title.
  rewrite (bind_run (emit _) _ w tt _ eq_refl).
  set (w1 := mkWorld (heap w) (figures w) (page w ++ [Title (Lit "Sales Dashboard ✨")])).
  intros Ok. destruct (bind_ok _ _ _ _ Ok) as ([] & w2 & K & E2).
  rewrite E2 in Ok |- *. clear E2.
  pose proof (kpis_draw_nothing datas w1) as F2.
  pose proof (kpis_keeps datas w1) as L2.
  rewrite K in F2, L2. cbn [snd figures heap w1] in F2, L2. rewrite L in L2.
  destruct (bind_ok _ _ _ _ Ok) as ([] & w3 & O & E3).
  rewrite E3. clear E3 Ok.
  pose proof (orders_draw_nothing datas picked w2) as F3.
  pose proof (orders_keeps datas picked w2) as L3.
  rewrite O in F3, L3. cbn [snd] in F3, L3. rewrite L2 in L3.
  rewrite (lower_run w3 datas t L3). cbn [snd figures]. rewrite F3, F2. reflexivity.
Qed.

(** X9.  The KPI and orders-per-day routines never touch the figure stack.
    The demographic and payment routines each open one new figure, draw on
    it alone and show it, and no routine closes a figure: after a run of
    [main] that ends normally the pie and, under it, the bar plot stay on
    top of the figures that were there. *)
Theorem figures_stay_open {Fl : Float64} w datas t picked :
  nth_error (heap w) datas = Some t -> t <> [] ->
  figures (snd (display_dashboard_kpis datas w)) = figures w /\
  figures (snd (display_orders_per_day_latest_year datas picked w)) = figures w /\
  (exists f,
     figures (snd (display_customer_demographic datas w)) = f :: figures w /\
     emitted (display_customer_demographic datas) w = [Pyplot f]) /\
  (exists f,
     figures (snd (display_payment_distribution datas w)) = f :: figures w /\
     last (emitted (display_payment_distribution datas) w) (Columns []) = Pyplot f) /\
  (fst (main datas picked w) = inr tt ->
   exists pie bars,
     figures (snd (main datas picked w)) = pie :: bars :: figures w /\
     pie_of [Pyplot pie] = pie_of (emitted (display_payment_distribution datas) w) /\
     bars_of [Pyplot bars] = bars_of (emitted (display_customer_demographic datas) w)).
Proof.
  intros L _. split; [apply kpis_draw_nothing|]. split; [apply orders_draw_nothing|].
  pose proof (demographic_run w datas t L) as Dr.
  pose proof (payment_run w datas t L) as Pr.
  split; [|split].
  - exists (demographic_figure t). rewrite Dr. split; [reflexivity|].
    apply (emitted_app _ _ _ _ _ _ Dr).
  - exists (payment_figure t). rewrite Pr. split; [reflexivity|].
    rewrite (emitted_app _ _ _ _ _ _ Pr). reflexivity.
  - intros Ok. exists (payment_figure t), (demographic_figure t).
    rewrite (emitted_app _ _ _ _ _ _ Dr), (emitted_app _ _ _ _ _ _ Pr).
    split; [|split; reflexivity].
    apply (main_figures w datas t picked L Ok).
Qed.

Lemma figures_stay_open_witness :
  nth_error (heap busy_world) 1%nat = Some sample_table /\
  sample_table <> [] /\
  exists pie bars,
    figures (snd (main (F := binary64) 1%nat [mkDate 2018 1 1; mkDate 2018 12 31] busy_world))
    = pie :: bars :: figures busy_world.
Proof.
  assert (N : sample_table <> []) by discriminate.
  split; [reflexivity|]. split; [exact N|].
  destruct (figures_stay_open (Fl := binary64) busy_world 1%nat sample_table
              [mkDate 2018 1 1; mkDate 2018 12 31] eq_refl N)
    as (_ & _ & _ & _ & Mn).
  destruct (Mn eq_refl) as (pie & bars & E & _).
  exists pie, bars. exact E.
Defined.

(** ** The orders-per-day chart *)

Lemma filter_all {A} (l : list A) : filter (fun _ => true) l = l.
Proof. induction l; cbn; congruence. Qed.

Lemma groupby_sizes_total {K} `{KeyOrd K} {R} (key : R -> K) rows :
  list_sum (map snd (map (fun g => (fst g, List.length (snd g))) (groupby key rows)))
  = List.length rows.
Proof.
  pose proof (groupby_kept_size key (fun _ => true) rows) as E.
  unfold kept_sizes, count_if in E. rewrite !filter_all in E. exact E.
Qed.

Lemma size_by_total {K} `{KeyOrd K} {R S} (k : R -> K) (g : R -> S) X :
  list_sum (map snd (size_by (map k X) (map g X))) = List.length X.
Proof.
  unfold size_by. rewrite groupby_sizes_total, length_combine, !length_map.
  apply Nat.min_id.
Qed.

Lemma size_by_sorted {K} `{KeyOrd K} {R} (key : list K) (rows : list R) :
  StronglySorted (fun a b => cmp (fst a) (fst b) = Lt) (size_by key rows).
Proof.
  apply (StronglySorted_unmap (fun a b : K => cmp a b = Lt) fst).
  unfold size_by. rewrite map_map. cbn [fst].
  apply (ordered_sorted (groupby fst (combine key rows))). apply groupby_ordered.
Qed.

Lemma size_by_in {K} `{KeyOrd K} {R S} (k : R -> K) (g : R -> S) X d n :
  In (d, n) (size_by (map k X) (map g X)) ->
  (1 <= n)%nat /\ exists r, In r X /\ k r = d.
Proof.
  unfold size_by. intros I. apply in_map_iff in I. destruct I as [[d' rs] [E I]].
  cbn [fst snd] in E. inversion E; subst. clear E.
  destruct (groupby_group _ _ _ _ I) as [Ers Ne]. split.
  - destruct rs; [congruence | cbn; lia].
  - destruct rs as [|p rs]; [congruence|].
    assert (Ip : In p (filter (fun r => keqb (fst r) d) (combine (map k X) (map g X))))
      by (rewrite <- Ers; left; reflexivity).
    apply filter_In in Ip. destruct Ip as [Ip Kp]. apply keqb_eq in Kp.
    destruct p as [d0 x]. cbn [fst] in Kp. subst d0.
    apply in_combine_l in Ip. apply in_map_iff in Ip. destruct Ip as [r [E I']].
    exists r. auto.
Qed.

Lemma date_leb_trans a b c :
  date_leb a b = true -> date_leb b c = true -> date_leb a c = true.
Proof.
  unfold date_leb. intros AB BC.
  destruct (date_compare a b) eqn:E1; [|  |discriminate].
  - apply date_compare_eq in E1. subst b. exact BC.
  - destruct (date_compare b c) eqn:E2; [| |discriminate].
    + apply date_compare_eq in E2. subst c. rewrite E1. reflexivity.
    + rewrite (date_compare_trans a b c E1 E2). reflexivity.
Qed.

Lemma chosen_in y s e t r :
  In r (chosen y s e t) ->
  In r t /\ year (day_of r) = y /\
  date_leb s (day_of r) = true /\ date_leb (day_of r) e = true.
Proof.
  unfold chosen. intros I. apply filter_In in I. destruct I as [I Rg].
  apply filter_In in I. destruct I as [I Yr].
  unfold in_range in Rg. apply andb_true_iff in Rg. unfold in_year in Yr.
  apply Z.eqb_eq in Yr. tauto.
Qed.

Lemma chosen_inverted y s e t : date_compare s e = Gt -> chosen y s e t = [].
Proof.
  intros G. destruct (chosen y s e t) as [|r l] eqn:E; [reflexivity|].
  assert (I : In r (chosen y s e t)) by (rewrite E; left; reflexivity).
  apply chosen_in in I. destruct I as (_ & _ & A & B).
  pose proof (date_leb_trans _ _ _ A B) as C. unfold date_leb in C.
  rewrite G in C. discriminate.
Qed.

Lemma chosen_length t y s e :
  parsed t = true ->
  List.length (chosen y s e t) = count_if (in_selection y s e) t.
Proof.
  intros P. unfold count_if, chosen. rewrite filter_and. f_equal.
  apply filter_ext_in. intros r I.
  unfold in_selection, in_year, in_range.
  rewrite (parsed_purchased t r P I), !andb_assoc. reflexivity.
Qed.

(** X10.  The chart of orders per day, whenever one is shown: the selection
    has at least two dates, of which only the first two, [s] and [e], are
    used; the bars come by increasing date, each at least 1, each on a date
    of the latest year between [s] and [e]; together they count every record
    of the latest year purchased between [s] and [e]; and a range picked
    backwards ([s] after [e]) gives a chart with no bar. *)
Theorem chart_is_a_sorted_histogram w datas t picked bars :
  nth_error (heap w) datas = Some t -> parsed t = true ->
  chart_of (emitted (display_orders_per_day_latest_year datas picked) w) = Some bars ->
  exists s e rest y,
    picked = s :: e :: rest /\
    latest_year_is t y /\
    chart_of (emitted (display_orders_per_day_latest_year datas [s; e]) w) = Some bars /\
    StronglySorted (fun a b => date_compare (fst a) (fst b) = Lt) bars /\
    (forall d n, In (d, n) bars ->
       (1 <= n)%nat /\ year d = y /\ date_leb s d = true /\ date_leb d e = true) /\
    list_sum (map snd bars) = count_if (in_selection y s e) t /\
    (date_compare s e = Gt -> bars = []).
Proof.
  intros L P C.
  destruct (empty_or_latest t) as [->|[y Mx]].
  { rewrite (emitted_nothing _ _ _ _ _ (orders_run_empty w datas picked L)) in C.
    discriminate. }
  destruct picked as [|s [|e rest]].
  - rewrite (emitted_app _ _ _ _ _ _ (orders_run_none w datas t y L P Mx)) in C.
    discriminate.
  - rewrite (emitted_app _ _ _ _ _ _ (orders_run_one w datas t s y L P Mx)) in C.
    discriminate.
  - rewrite (emitted_app _ _ _ _ _ _ (orders_run w datas t s e rest y L P Mx)) in C.
    cbn in C. inversion C as [Eb]. clear C.
    exists s, e, rest, y. split; [reflexivity|].
    split; [apply (latest_year_max t y P), Mx|].
    split; [rewrite (emitted_app _ _ _ _ _ _ (orders_run w datas t s e [] y L P Mx));
            reflexivity|].
    split; [apply (size_by_sorted (K := Date))|].
    split; [|split].
    + intros d n I. apply size_by_in in I. destruct I as [N [r [I E]]].
      apply chosen_in in I. subst d. tauto.
    + rewrite size_by_total. apply chosen_length, P.
    + intros G. rewrite (chosen_inverted y s e t G). reflexivity.
Qed.

Lemma chart_is_a_sorted_histogram_witness :
  nth_error (heap sample_world) 0%nat = Some sample_table /\
  parsed sample_table = true /\
  exists bars s e y,
    chart_of (emitted (display_orders_per_day_latest_year 0%nat
                [mkDate 2018 1 1; mkDate 2018 12 31]) sample_world) = Some bars /\
    latest_year_is sample_table y /\
    list_sum (map snd bars) = count_if (in_selection y s e) sample_table.
Proof.
  split; [reflexivity|]. split; [reflexivity|].
  assert (C : exists bars,
             chart_of (emitted (display_orders_per_day_latest_year 0%nat
                         [mkDate 2018 1 1; mkDate 2018 12 31]) sample_world) = Some bars)
    by (eexists; vm_compute; reflexivity).
  destruct C as [bars C].
  destruct (chart_is_a_sorted_histogram sample_world 0%nat sample_table
              [mkDate 2018 1 1; mkDate 2018 12 31] bars eq_refl eq_refl C)
    as (s & e & rest & y & _ & Ly & _ & _ & _ & Sum & _).
  exists bars, s, e, y. auto.
Defined.

(** ** Keyed Series are determined by their values *)

Section KeyedSeries.
Context {K : Type} `{KeyOrd K} {V : Type}.

Lemma below_lookup k (s : list (K * V)) : below k s -> at_key k s = None.
Proof.
  induction 1 as [|[k' v] s E _ IH]; cbn; [reflexivity|].
  cbn in E. unfold keqb. rewrite E. exact IH.
Qed.

Lemma lookup_in k v (s : list (K * V)) : at_key k s = Some v -> In k (map fst s).
Proof.
  induction s as [|[k' v'] s IH]; cbn; [discriminate|].
  destruct (keqb k k') eqn:E; [|auto].
  intros _. left. symmetry. apply keqb_eq, E.
Qed.

Lemma below_in k k' (s : list (K * V)) : below k s -> In k' (map fst s) -> cmp k k' = Lt.
Proof.
  intros B I. apply in_map_iff in I. destruct I as [g [<- I]].
  unfold below in B. rewrite Forall_forall in B. apply B, I.
Qed.

(** Two Series in increasing key order that hold the same value at every
    key are the same Series. *)
Lemma ordered_ext (s s' : list (K * V)) :
  ordered s -> ordered s' -> (forall k, at_key k s = at_key k s') -> s = s'.
Proof.
  intros O. revert s'. induction O as [|k v s B O IH]; intros s' O' E.
  - destruct O' as [|k' v' s' B' O']; [reflexivity|].
    specialize (E k'). cbn in E. rewrite keqb_refl in E. discriminate.
  - destruct O' as [|k' v' s' B' O'].
    { specialize (E k). cbn in E. rewrite keqb_refl in E. discriminate. }
    assert (Ek : k = k' /\ v = v').
    { pose proof (E k) as E1. pose proof (E k') as E2. cbn in E1, E2.
      rewrite keqb_refl in E1, E2. rewrite (keqb_sym k' k) in E2.
      destruct (keqb k k') eqn:Q.
      - apply keqb_eq in Q. inversion E1. auto.
      - symmetry in E1. apply lookup_in in E1. apply lookup_in in E2.
        pose proof (below_in _ _ _ B' E1) as L1.
        pose proof (below_in _ _ _ B E2) as L2.
        pose proof (cmp_trans _ _ _ L1 L2) as L3. rewrite cmp_refl in L3. discriminate. }
    destruct Ek as [<- <-]. f_equal. apply IH; [exact O'|].
    intros x. specialize (E x). cbn in E. destruct (keqb x k) eqn:Q; [|exact E].
    apply keqb_eq in Q. subst x. rewrite (below_lookup _ _ B), (below_lookup _ _ B').
    reflexivity.
Qed.

End KeyedSeries.

Lemma ordered_values {K} `{KeyOrd K} {V W} (f : V -> W) (s : list (K * V)) :
  ordered s -> ordered (map (fun g => (fst g, f (snd g))) s).
Proof.
  induction 1 as [|k v s B O IH]; cbn; constructor; [|exact IH].
  unfold below in *. rewrite Forall_map. exact B.
Qed.

Lemma at_key_values {K} `{KeyOrd K} {V W} (f : V -> W) d (s : list (K * V)) :
  at_key d (map (fun g => (fst g, f (snd g))) s) = option_map f (at_key d s).
Proof.
  induction s as [|[k v] s IH]; cbn; [reflexivity|].
  destruct (keqb d k); [reflexivity | exact IH].
Qed.

(** ** The order of the records *)

Lemma Permutation_filtered {A} (p : A -> bool) l l' :
  Permutation l l' -> Permutation (filter p l) (filter p l').
Proof.
  induction 1 as [|x l l' _ IH|x y l|l l' l'' _ IH1 _ IH2]; cbn.
  - constructor.
  - destruct (p x); [constructor|]; exact IH.
  - destruct (p x), (p y); try apply Permutation_refl. apply perm_swap.
  - eapply Permutation_trans; eassumption.
Qed.

Lemma count_if_perm {A} (p : A -> bool) l l' :
  Permutation l l' -> count_if p l = count_if p l'.
Proof. intros P. unfold count_if. apply Permutation_length, Permutation_filtered, P. Qed.

Lemma nunique_perm l l' : Permutation l l' -> nunique l = nunique l'.
Proof.
  intros P. unfold nunique. apply Permutation_length.
  apply NoDup_Permutation; try apply NoDup_nodup.
  intros x. rewrite !nodup_In. split; apply Permutation_in; [|symmetry]; exact P.
Qed.

Lemma groupby_values_perm {K} `{KeyOrd K} {R V} (key : R -> K) (f : list R -> V) t t' :
  (forall l l', Permutation l l' -> f l = f l') ->
  Permutation t t' ->
  map (fun g => (fst g, f (snd g))) (groupby key t)
  = map (fun g => (fst g, f (snd g))) (groupby key t').
Proof.
  intros Hf P. apply ordered_ext; try (apply ordered_values, groupby_ordered).
  intros k. rewrite !at_key_values, !at_key_groupby.
  pose proof (Permutation_filtered (fun r => keqb (key r) k) t t' P) as Pf.
  destruct (filter _ t) as [|r rs] eqn:E, (filter _ t') as [|r' rs'] eqn:E'; cbn.
  - reflexivity.
  - apply Permutation_nil in Pf. discriminate.
  - symmetry in Pf. apply Permutation_nil in Pf. discriminate.
  - f_equal. apply Hf, Pf.
Qed.

Lemma customer_city_count_perm t t' :
  Permutation t t' -> customer_city_count t = customer_city_count t'.
Proof.
  intros P. unfold customer_city_count.
  apply (groupby_values_perm customer_city (fun rs => nunique (map customer_unique_id rs)));
    [|exact P].
  intros l l' Pl. apply nunique_perm, Permutation_map, Pl.
Qed.

Lemma payment_counts_perm t t' :
  Permutation t t' -> payment_counts t = payment_counts t'.
Proof.
  intros P. unfold payment_counts.
  apply (groupby_values_perm payment_type (@List.length Row)); [|exact P].
  intros l l' Pl. apply Permutation_length, Pl.
Qed.

Lemma parsed_perm t t' : Permutation t t' -> parsed t = true -> parsed t' = true.
Proof.
  unfold parsed. rewrite !forallb_forall. intros P A r I. apply A.
  apply (Permutation_in r (Permutation_sym P) I).
Qed.

Lemma latest_year_perm t t' y y' :
  Permutation t t' ->
  Series_max (map (fun r => year (day_of r)) t) = Some y ->
  Series_max (map (fun r => year (day_of r)) t') = Some y' -> y = y'.
Proof.
  intros P E E'. apply Series_max_spec in E, E'.
  destruct E as [I B], E' as [I' B'].
  pose proof (Permutation_map (fun r => year (day_of r)) P) as Pm.
  apply (Permutation_in _ Pm) in I. apply (Permutation_in _ (Permutation_sym Pm)) in I'.
  specialize (B _ I'). specialize (B' _ I). lia.
Qed.

Lemma chart_perm y s e t t' :
  Permutation t t' ->
  size_by (map day_of (chosen y s e t)) (map with_date (chosen y s e t))
  = size_by (map day_of (chosen y s e t')) (map with_date (chosen y s e t')).
Proof.
  intros P.
  apply ordered_ext;
    try (unfold size_by; apply (ordered_values (@List.length (Date * Row))), groupby_ordered).
  intros d. rewrite !size_by_at_key. f_equal. apply count_if_perm.
  unfold chosen. apply Permutation_filtered, Permutation_filtered, P.
Qed.

Lemma shows_run {A} (m : M A) w r h f out :
  m w = (r, mkWorld h f (page w ++ out)) -> shows m w = (r, out).
Proof.
  intros E. unfold shows. rewrite (emitted_app _ _ _ _ _ _ E), E. reflexivity.
Qed.

Lemma shows_run_nothing {A} (m : M A) w r h f :
  m w = (r, mkWorld h f (page w)) -> shows m w = (r, []).
Proof.
  intros E. unfold shows. rewrite (emitted_nothing _ _ _ _ _ E), E. reflexivity.
Qed.

Lemma emitted_same {A} (m : M A) w r : m w = (r, w) -> emitted m w = [].
Proof. intros E. unfold emitted. rewrite E. apply skipn_all. Qed.

Lemma orders_shows_perm w w' d d' t t' picked :
  nth_error (heap w) d = Some t -> nth_error (heap w') d' = Some t' ->
  Permutation t t' -> parsed t = true ->
  shows (display_orders_per_day_latest_year d picked) w
  = shows (display_orders_per_day_latest_year d' picked) w'.
Proof.
  intros L L' P Pt. pose proof (parsed_perm t t' P Pt) as Pt'.
  destruct (empty_or_latest t) as [->|[y Mx]].
  { apply Permutation_nil in P. subst t'.
    rewrite (shows_run_nothing _ _ _ _ _ (orders_run_empty w d picked L)).
    rewrite (shows_run_nothing _ _ _ _ _ (orders_run_empty w' d' picked L')).
    reflexivity. }
  destruct (empty_or_latest t') as [->|[y' Mx']].
  { symmetry in P. apply Permutation_nil in P. subst t. discriminate. }
  assert (y' = y) by (symmetry; apply (latest_year_perm t t' y y' P Mx Mx')). subst y'.
  destruct picked as [|s [|e rest]].
  - rewrite (shows_run _ _ _ _ _ _ (orders_run_none w d t y L Pt Mx)).
    rewrite (shows_run _ _ _ _ _ _ (orders_run_none w' d' t' y L' Pt' Mx')).
    reflexivity.
  - rewrite (shows_run _ _ _ _ _ _ (orders_run_one w d t s y L Pt Mx)).
    rewrite (shows_run _ _ _ _ _ _ (orders_run_one w' d' t' s y L' Pt' Mx')).
    reflexivity.
  - rewrite (shows_run _ _ _ _ _ _ (orders_run w d t s e rest y L Pt Mx)).
    rewrite (shows_run _ _ _ _ _ _ (orders_run w' d' t' s e rest y L' Pt' Mx')).
    rewrite (chart_perm y s e t t' P). reflexivity.
Qed.

Lemma total_orders_perm {Fl : Float64} w w' d d' t t' :
  nth_error (heap w) d = Some t -> nth_error (heap w') d' = Some t' ->
  Permutation t t' ->
  shown_under "Total Orders" (emitted (display_dashboard_kpis d) w)
  = shown_under "Total Orders" (emitted (display_dashboard_kpis d') w').
Proof.
  intros L L' P. destruct t as [|r t].
  - apply Permutation_nil in P. subst t'.
    rewrite (emitted_same _ _ _ (kpis_run_nan w d [] L eq_refl)).
    rewrite (emitted_same _ _ _ (kpis_run_nan w' d' [] L' eq_refl)).
    reflexivity.
  - assert (N : r :: t <> []) by discriminate.
    assert (N' : t' <> []).
    { intros ->. symmetry in P. apply Permutation_nil in P. discriminate. }
    destruct (mean_of_order_totals _ N) as [q Mn].
    destruct (mean_of_order_totals _ N') as [q' Mn'].
    rewrite (emitted_app _ _ _ _ _ _ (kpis_run w d _ q L Mn)).
    rewrite (emitted_app _ _ _ _ _ _ (kpis_run w' d' _ q' L' Mn')).
    change (Some (Grouped (number_of_orders (r :: t))) = Some (Grouped (number_of_orders t'))).
    unfold number_of_orders. do 2 f_equal. apply nunique_perm, Permutation_map, P.
Qed.

(** X11.  The order of the records in the table does not matter to what is
    counted: two tables with the same records in different orders give the
    same demographic plot, the same payment panel, the same selector and
    orders-per-day chart (and the same failure, if any), and the same Total
    Orders. *)
Theorem record_order_does_not_matter {Fl : Float64} w w' d d' t t' picked :
  nth_error (heap w) d = Some t -> nth_error (heap w') d' = Some t' ->
  Permutation t t' ->
  shows (display_customer_demographic d) w = shows (display_customer_demographic d') w' /\
  shows (display_payment_distribution d) w = shows (display_payment_distribution d') w' /\
  (parsed t = true ->
   shows (display_orders_per_day_latest_year d picked) w
   = shows (display_orders_per_day_latest_year d' picked) w') /\
  shown_under "Total Orders" (emitted (display_dashboard_kpis d) w)
  = shown_under "Total Orders" (emitted (display_dashboard_kpis d') w').
Proof.
  intros L L' P. split; [|split; [|split]].
  - rewrite (shows_run _ _ _ _ _ _ (demographic_run w d t L)).
    rewrite (shows_run _ _ _ _ _ _ (demographic_run w' d' t' L')).
    unfold demographic_figure, demographic_bars, top_10_cities.
    rewrite (customer_city_count_perm t t' P). reflexivity.
  - rewrite (shows_run _ _ _ _ _ _ (payment_run w d t L)).
    rewrite (shows_run _ _ _ _ _ _ (payment_run w' d' t' L')).
    unfold payment_panel, payment_figure, payment_wedges, filtered_payment_type.
    rewrite (payment_counts_perm t t' P). reflexivity.
  - apply (orders_shows_perm w w' d d' t t' picked L L' P).
  - apply (total_orders_perm w w' d d' t t' L L' P).
Qed.

Lemma record_order_does_not_matter_witness :
  nth_error (heap sample_world) 0%nat = Some sample_table /\
  nth_error (heap (canon (rev sample_table))) 0%nat = Some (rev sample_table) /\
  Permutation sample_table (rev sample_table) /\
  shows (display_customer_demographic 0%nat) sample_world
  = shows (display_customer_demographic 0%nat) (canon (rev sample_table)).
Proof.
  assert (P : Permutation sample_table (rev sample_table)) by apply Permutation_rev.
  split; [reflexivity|]. split; [reflexivity|]. split; [exact P|].
  apply (record_order_does_not_matter (Fl := binary64) sample_world (canon (rev sample_table)) 0%nat 0%nat
           sample_table (rev sample_table) [] eq_refl eq_refl P).
Defined.

(** ** The pie against its legend *)

Lemma in_list_sum_le n l : In n l -> (n <= list_sum l)%nat.
Proof.
  unfold list_sum. induction l as [|m l IH]; cbn; [tauto|].
  intros [->|I]; [lia | specialize (IH I); lia].
Qed.

Lemma count_if_pos {A} (p : A -> bool) l a :
  In a l -> p a = true -> (1 <= count_if p l)%nat.
Proof.
  intros I Pa. unfold count_if.
  assert (F : In a (filter p l)) by (apply filter_In; auto).
  destruct (filter p l); [destruct F | cbn; lia].
Qed.

Lemma payment_share_bounds t wd :
  In wd (payment_wedges t) -> (0 < wedge_share wd)%Q /\ (wedge_share wd <= 1)%Q.
Proof.
  unfold payment_wedges. intros I. apply wedges_in in I. destruct I as [x [I ->]].
  pose proof (in_list_sum_le x (map snd (filtered_payment_type t))
                (in_map snd _ _ I)) as Le.
  apply filtered_payment_type_spec in I. destruct I as (_ & Ip & Ex).
  apply in_map_iff in Ip. destruct Ip as [r [Er Ir]].
  assert (Pos : (1 <= x)%nat).
  { rewrite Ex. apply (count_if_pos _ _ r Ir). unfold paid_by. rewrite Er.
    apply String.eqb_refl. }
  set (total := list_sum (map snd (filtered_payment_type t))) in *.
  assert (Tq : (0 < Qnat total)%Q).
  { unfold Qnat. change 0%Q with (inject_Z 0). rewrite <- Zlt_Qlt. lia. }
  assert (Xq : (0 < Qnat x)%Q).
  { unfold Qnat. change 0%Q with (inject_Z 0). rewrite <- Zlt_Qlt. lia. }
  assert (Lq : (Qnat x <= Qnat total)%Q).
  { unfold Qnat. rewrite <- Zle_Qle. lia. }
  split.
  - apply Qlt_shift_div_l; [exact Tq|]. rewrite Qmult_0_l. exact Xq.
  - apply Qle_shift_div_r; [exact Tq|]. rewrite Qmult_1_l. exact Lq.
Qed.

(** X12.  The wedges of the pie come in alphabetical order of payment type,
    each with a share above 0 and at most 1.  The legend lists credit_card
    first and boleto second, so the pie as drawn never equals the legend
    entry by entry, and every wedge has the colour the legend gives its
    label only when the pie has no wedge or the single wedge credit_card. *)
Theorem pie_never_matches_the_legend w datas t wedges :
  nth_error (heap w) datas = Some t ->
  pie_of (emitted (display_payment_distribution datas) w) = Some wedges ->
  StronglySorted (fun a b => String.compare (wedge_label a) (wedge_label b) = Lt) wedges /\
  (forall wd, In wd wedges -> (0 < wedge_share wd)%Q /\ (wedge_share wd <= 1)%Q) /\
  map slice wedges <> legend_of (emitted (display_payment_distribution datas) w) /\
  (Forall (fun wd => In (slice wd) (legend_of (emitted (display_payment_distribution datas) w)))
          wedges
   <-> map wedge_label wedges = [] \/ map wedge_label wedges = ["credit_card"]%string).
Proof.
  intros L. rewrite (emitted_app _ _ _ _ _ _ (payment_run w datas t L)).
  change (legend_of (payment_panel t)) with legend.
  change (pie_of (payment_panel t)) with (Some (payment_wedges t)).
  intros [= <-].
  assert (Lab : map wedge_label (payment_wedges t) = map fst (filtered_payment_type t))
    by apply wedges_labels.
  split; [|split; [|split]].
  - apply (StronglySorted_unmap (fun a b => String.compare a b = Lt) wedge_label).
    rewrite Lab. apply payment_groups_sorted.
  - intros wd. apply payment_share_bounds.
  - intros E. apply (slices_never_match_legend t). rewrite <- Lab.
    apply (f_equal (map snd)) in E. rewrite map_map in E. exact E.
  - rewrite Lab. apply wedges_agree_with_legend.
Qed.

Lemma pie_never_matches_the_legend_witness :
  nth_error (heap sample_world) 0%nat = Some sample_table /\
  exists wedges,
    pie_of (emitted (display_payment_distribution 0%nat) sample_world) = Some wedges /\
    map slice wedges <> legend_of (emitted (display_payment_distribution 0%nat) sample_world).
Proof.
  split; [reflexivity|].
  assert (C : exists wedges,
             pie_of (emitted (display_payment_distribution 0%nat) sample_world)
             = Some wedges) by (eexists; vm_compute; reflexivity).
  destruct C as [wedges C]. exists wedges. split; [exact C|].
  apply (pie_never_matches_the_legend sample_world 0%nat sample_table wedges eq_refl C).
Defined.

(** ** Which columns the routines read *)

Section GroupsAlike.
Context {K : Type} `{KeyOrd K} {R : Type}.
Variable key : R -> K.
Variable alike : R -> R -> Prop.
Hypothesis alike_key : forall r r', alike r r' -> key r' = key r.

Lemma insert_group_alike r r' gs gs' :
  alike r r' -> Forall2 (groups_alike alike) gs gs' ->
  Forall2 (groups_alike alike) (insert_group key r gs) (insert_group key r' gs').
Proof.
  intros A F. induction F as [|[k rs] [k' rs'] gs gs' [Ek Ers] F IH]; cbn.
  - constructor; [|constructor]. split; cbn; [apply alike_key, A | auto].
  - cbn in Ek, Ers. subst k'. rewrite (alike_key r r' A).
    destruct (cmp (key r) k).
    + constructor; [split; cbn; auto | exact F].
    + constructor; [split; cbn; auto|].
      constructor; [split; cbn; auto | exact F].
    + constructor; [split; cbn; auto | exact IH].
Qed.

Lemma groupby_alike t t' :
  Forall2 alike t t' -> Forall2 (groups_alike alike) (groupby key t) (groupby key t').
Proof.
  induction 1 as [|r r' t t' A F IH]; cbn; [constructor|].
  apply insert_group_alike; assumption.
Qed.

Lemma groupby_values_alike {V} (f : list R -> V) t t' :
  (forall l l', Forall2 alike l l' -> f l' = f l) ->
  Forall2 alike t t' ->
  map (fun g => (fst g, f (snd g))) (groupby key t')
  = map (fun g => (fst g, f (snd g))) (groupby key t).
Proof.
  intros Hf F. apply groupby_alike in F.
  induction F as [|g g' gs gs' [Ek Ers] F IH]; cbn; [reflexivity|].
  rewrite Ek, (Hf _ _ Ers), IH. reflexivity.
Qed.

End GroupsAlike.

Lemma map_alike {A B} (alike : A -> A -> Prop) (f : A -> B) l l' :
  (forall a a', alike a a' -> f a' = f a) -> Forall2 alike l l' -> map f l' = map f l.
Proof.
  intros Hf. induction 1 as [|a a' l l' E F IH]; cbn; [reflexivity|].
  rewrite (Hf _ _ E), IH. reflexivity.
Qed.

Lemma same_sale_totals {Fl : Float64} t t' :
  Forall2 same_sale t t' ->
  total_sales_revenue t' = total_sales_revenue t /\
  order_totals t' = order_totals t /\
  number_of_orders t' = number_of_orders t.
Proof.
  intros F. unfold total_sales_revenue, order_totals, number_of_orders. split; [|split].
  - f_equal. apply (map_alike same_sale); [|exact F]. unfold same_sale. tauto.
  - apply (fun A => groupby_values_alike order_id same_sale A
                      (fun rs => GroupBy_sum (map total_price rs)));
      [unfold same_sale; tauto| |exact F].
    intros l l' Al. f_equal. apply (map_alike same_sale); [|exact Al].
    unfold same_sale. tauto.
  - f_equal. apply (map_alike same_sale); [|exact F]. unfold same_sale. tauto.
Qed.

Lemma same_sale_cities t t' :
  Forall2 same_sale t t' -> customer_city_count t' = customer_city_count t.
Proof.
  intros F. unfold customer_city_count.
  apply (fun A => groupby_values_alike customer_city same_sale A
                    (fun rs => nunique (map customer_unique_id rs)));
    [unfold same_sale; tauto| |exact F].
  intros l l' Fl. f_equal. apply (map_alike same_sale); [|exact Fl].
  unfold same_sale. tauto.
Qed.

Lemma same_sale_payments t t' :
  Forall2 same_sale t t' -> payment_counts t' = payment_counts t.
Proof.
  intros F. unfold payment_counts.
  apply (fun A => groupby_values_alike payment_type same_sale A (@List.length Row));
    [unfold same_sale; tauto| |exact F].
  intros l l' Fl. symmetry. apply (Forall2_length Fl).
Qed.

Lemma kpis_shows_alike {Fl : Float64} w w' d d' t t' :
  nth_error (heap w) d = Some t -> nth_error (heap w') d' = Some t' ->
  Forall2 same_sale t t' ->
  shows (display_dashboard_kpis d) w = shows (display_dashboard_kpis d') w'.
Proof.
  intros L L' F. destruct (same_sale_totals t t' F) as (Et & Eo & En).
  destruct (Series_mean (map snd (order_totals t))) as [q|] eqn:Mn.
  - assert (Mn' : Series_mean (map snd (order_totals t')) = Some q) by (rewrite Eo; exact Mn).
    rewrite (shows_run _ _ _ _ _ _ (kpis_run w d t q L Mn)).
    rewrite (shows_run _ _ _ _ _ _ (kpis_run w' d' t' q L' Mn')).
    rewrite Et, En. reflexivity.
  - assert (Mn' : Series_mean (map snd (order_totals t')) = None) by (rewrite Eo; exact Mn).
    rewrite (shows_absent _ _ _ (kpis_run_nan w d t L Mn)).
    rewrite (shows_absent _ _ _ (kpis_run_nan w' d' t' L' Mn')).
    reflexivity.
Qed.

Lemma orders_run_text w datas t picked :
  nth_error (heap w) datas = Some t ->
  (exists r s, In r t /\ order_purchase_timestamp r = Raw s) ->
  display_orders_per_day_latest_year datas picked w = (inl AttributeError, w).
Proof.
  intros L [r [s [I E]]]. open_routine. lstep.
  assert (N : all_some (map (fun c => match c with
                                      | Stamp x => Some (year (date x))
                                      | Raw _ => None
                                      end) (map order_purchase_timestamp t)) = None).
  { rewrite map_map. apply all_some_none. exists r. rewrite E. auto. }
  rewrite N. tidy. repeat lstep. first [reflexivity | finish].
Qed.

(** X13.  Only the orders-per-day routine reads the timestamp columns.  The
    KPIs, the demographic plot and the payment panel are the same for two
    tables whose records agree on the other columns, so the loaded table
    gives what the file as read would give; the orders-per-day routine stops
    with AttributeError, before showing anything, on a table that still has
    a text cell in its purchase column. *)
Theorem only_orders_per_day_reads_timestamps {Fl : Float64} w w' d d' t t' picked :
  nth_error (heap w) d = Some t -> nth_error (heap w') d' = Some t' ->
  Forall2 same_sale t t' ->
  shows (display_dashboard_kpis d) w = shows (display_dashboard_kpis d') w' /\
  shows (display_customer_demographic d) w = shows (display_customer_demographic d') w' /\
  shows (display_payment_distribution d) w = shows (display_payment_distribution d') w' /\
  ((exists r s, In r t /\ order_purchase_timestamp r = Raw s) ->
   display_orders_per_day_latest_year d picked w = (inl AttributeError, w)).
Proof.
  intros L L' F. split; [|split; [|split]].
  - apply (kpis_shows_alike w w' d d' t t' L L' F).
  - rewrite (shows_run _ _ _ _ _ _ (demographic_run w d t L)).
    rewrite (shows_run _ _ _ _ _ _ (demographic_run w' d' t' L')).
    unfold demographic_figure, demographic_bars, top_10_cities.
    rewrite (same_sale_cities t t' F). reflexivity.
  - rewrite (shows_run _ _ _ _ _ _ (payment_run w d t L)).
    rewrite (shows_run _ _ _ _ _ _ (payment_run w' d' t' L')).
    unfold payment_panel, payment_figure, payment_wedges, filtered_payment_type.
    rewrite (same_sale_payments t t' F). reflexivity.
  - apply (orders_run_text w d t picked L).
Qed.

Lemma only_orders_per_day_reads_timestamps_witness :
  nth_error (heap (canon sample_file)) 0%nat = Some sample_file /\
  nth_error (heap sample_world) 0%nat = Some sample_table /\
  Forall2 same_sale sample_file sample_table /\
  shows (display_dashboard_kpis (F := binary64) 0%nat) (canon sample_file)
  = shows (display_dashboard_kpis (F := binary64) 0%nat) sample_world.
Proof.
  assert (F : Forall2 same_sale sample_file sample_table).
  { unfold same_sale. vm_compute. repeat constructor. }
  split; [reflexivity|]. split; [reflexivity|]. split; [exact F|].
  apply (only_orders_per_day_reads_timestamps (Fl := binary64) (canon sample_file) sample_world 0%nat 0%nat
           sample_file sample_table [] eq_refl eq_refl F).
Defined.

(** ** The default selection *)

Lemma year_bounds d :
  valid_date d = true ->
  date_leb (mkDate (year d) 1 1) d = true /\ date_leb d (mkDate (year d) 12 31) = true.
Proof.
  unfold valid_date, date_leb, date_compare. cbn [year month day].
  rewrite !andb_true_iff, !Z.leb_le. intros [[[M1 M12] D1] Dn].
  assert (D31 : day d <= 31).
  { unfold days_in_month in Dn.
    destruct (month d =? 2); [destruct (is_leap (year d)); lia|].
    destruct ((month d =? 4) || (month d =? 6) || (month d =? 9) || (month d =? 11)); lia. }
  rewrite Z.compare_refl. split.
  - destruct (Z.compare_spec 1 (month d)); [|reflexivity|lia].
    destruct (Z.compare_spec 1 (day d)); [reflexivity|reflexivity|lia].
  - destruct (Z.compare_spec (month d) 12); [|reflexivity|lia].
    destruct (Z.compare_spec (day d) 31); [reflexivity|reflexivity|lia].
Qed.

Lemma parsed_valid_date t r : parsed t = true -> In r t -> valid_date (day_of r) = true.
Proof.
  unfold parsed. rewrite forallb_forall. intros P I. specialize (P r I).
  unfold day_of, stamp_of. destruct (order_purchase_timestamp r); [discriminate|].
  unfold valid_stamp in P. rewrite !andb_true_iff in P. tauto.
Qed.

Lemma whole_year_selection t y r :
  parsed t = true -> In r t ->
  in_selection y (mkDate y 1 1) (mkDate y 12 31) r = purchased_in y r.
Proof.
  intros P I. unfold in_selection, purchased_in.
  rewrite (parsed_purchased t r P I).
  destruct (Z.eqb_spec (year (day_of r)) y) as [E|N]; [|reflexivity].
  destruct (year_bounds _ (parsed_valid_date t r P I)) as [A B].
  rewrite E in A, B. rewrite A, B. reflexivity.
Qed.

(** X14.  The selector is shown with the whole latest year, 1 January to 31
    December, as its value; with that selection the chart has a bar for
    every date of the latest year with a purchase, as high as the number of
    records purchased on it, and the bars add up to the number of records of
    the latest year.  The title above the chart names that year. *)
Theorem default_selection_covers_latest_year w datas t :
  nth_error (heap w) datas = Some t -> parsed t = true -> t <> [] ->
  exists y bars,
    latest_year_is t y /\
    (forall picked,
       selector_of (emitted (display_orders_per_day_latest_year datas picked) w)
       = Some (DateInput "Select Date Range" (mkDate y 1 1, mkDate y 12 31)
                 (mkDate y 1 1) (mkDate y 12 31))) /\
    emitted (display_orders_per_day_latest_year datas [mkDate y 1 1; mkDate y 12 31]) w
    = [selector y; Title (Fstr "Number of Orders per Day in " y); BarChart bars 400] /\
    (forall d, at_key d bars = bar (count_if (fun r => purchased_in y r && on_date d r) t)) /\
    list_sum (map snd bars) = count_if (purchased_in y) t.
Proof.
  intros L P N. destruct (empty_or_latest t) as [E|[y Mx]]; [contradiction|].
  exists y. eexists. split; [apply (latest_year_max t y P), Mx|]. split; [|split; [|split]].
  - intros [|s [|e rest]].
    + rewrite (emitted_app _ _ _ _ _ _ (orders_run_none w datas t y L P Mx)). reflexivity.
    + rewrite (emitted_app _ _ _ _ _ _ (orders_run_one w datas t s y L P Mx)). reflexivity.
    + rewrite (emitted_app _ _ _ _ _ _ (orders_run w datas t s e rest y L P Mx)).
      reflexivity.
  - rewrite (emitted_app _ _ _ _ _ _
               (orders_run w datas t (mkDate y 1 1) (mkDate y 12 31) [] y L P Mx)).
    reflexivity.
  - intros d. rewrite size_by_at_key, (chosen_count t y _ _ d P). f_equal.
    unfold count_if. f_equal. apply filter_ext_in. intros r I.
    rewrite (whole_year_selection t y r P I). reflexivity.
  - rewrite size_by_total, (chosen_length t y _ _ P).
    unfold count_if. f_equal. apply filter_ext_in. intros r I.
    apply (whole_year_selection t y r P I).
Qed.

Lemma default_selection_covers_latest_year_witness :
  nth_error (heap sample_world) 0%nat = Some sample_table /\
  parsed sample_table = true /\ sample_table <> [] /\
  exists y bars,
    latest_year_is sample_table y /\
    emitted (display_orders_per_day_latest_year 0%nat [mkDate y 1 1; mkDate y 12 31])
            sample_world
    = [selector y; Title (Fstr "Number of Orders per Day in " y); BarChart bars 400] /\
    list_sum (map snd bars) = count_if (purchased_in y) sample_table.
Proof.
  assert (N : sample_table <> []) by discriminate.
  split; [reflexivity|]. split; [reflexivity|]. split; [exact N|].
  destruct (default_selection_covers_latest_year sample_world 0%nat sample_table
              eq_refl eq_refl N) as (y & bars & Ly & _ & Out & _ & Sum).
  exists y, bars. auto.
Defined.

(** ** The page depends on the file and the selection only *)

Lemma table_local_relocate {A} t (m : loc -> M A) :
  (forall d w, nth_error (heap w) d = Some t -> m d w = relocate w (m 0%nat (canon t))) ->
  table_local t m.
Proof.
  intros Loc.
  exists (fst (m 0%nat (canon t))), (tl (heap (snd (m 0%nat (canon t))))),
         (figures (snd (m 0%nat (canon t)))), (page (snd (m 0%nat (canon t)))).
  intros d w L. rewrite (Loc d w L). reflexivity.
Qed.

Lemma table_local_bind {A B} t (m : loc -> M A) (k : A -> loc -> M B) :
  table_local t m -> (forall a, table_local t (k a)) ->
  table_local t (fun d => bind (m d) (fun a => k a d)).
Proof.
  intros (r & h & f & p & Hm) Hk. destruct r as [e|a].
  - exists (inl e), h, f, p. intros d w L. apply bind_fail, Hm, L.
  - destruct (Hk a) as (r' & h' & f' & p' & Hka).
    exists r', (h ++ h'), (f' ++ f), (p ++ p'). intros d w L.
    rewrite (bind_run _ _ _ _ _ (Hm d w L)).
    rewrite (Hka d); [|cbn [heap]; apply nth_error_app_old, L].
    cbn [heap figures page]. rewrite !app_assoc. reflexivity.
Qed.

Lemma table_local_emit t e : table_local t (fun _ => emit e).
Proof.
  exists (inr tt), [], [], [e]. intros d w _. unfold emit.
  rewrite app_nil_r. reflexivity.
Qed.

Lemma table_local_with_column {A} t i (body : loc -> M A) :
  table_local t body -> table_local t (fun d => with_column i (body d)).
Proof.
  intros (r & h & f & p & Hb).
  exists r, h, f, (map (InColumn i) p). intros d w L. unfold with_column.
  rewrite (Hb d (mkWorld (heap w) (figures w) []) L). reflexivity.
Qed.

Lemma main_table_local {Fl : Float64} t picked : table_local t (fun d => main d picked).
Proof.
  unfold main, st_title, st_columns, st_subheader.
  apply (table_local_bind t (fun _ => emit _)); [apply table_local_emit | intros _].
  apply (table_local_bind t (fun d => display_dashboard_kpis d));
    [apply table_local_relocate; intros d w L; apply kpis_local, L | intros _].
  apply (table_local_bind t (fun d => display_orders_per_day_latest_year d picked));
    [apply table_local_relocate; intros d w L; apply orders_local, L | intros _].
  apply (table_local_bind t (fun _ => emit _)); [apply table_local_emit | intros _].
  apply (table_local_bind t (fun d => with_column 0 _)
           (fun _ d => with_column 1 _)); [|intros _].
  - apply (table_local_with_column t 0
             (fun d => bind (emit _) (fun _ => display_customer_demographic d))).
    apply (table_local_bind t (fun _ => emit _) (fun _ d => display_customer_demographic d));
      [apply table_local_emit | intros _].
    apply table_local_relocate; intros d w L; apply demographic_local, L.
  - apply (table_local_with_column t 1
             (fun d => bind (emit _) (fun _ => display_payment_distribution d))).
    apply (table_local_bind t (fun _ => emit _) (fun _ d => display_payment_distribution d));
      [apply table_local_emit | intros _].
    apply table_local_relocate; intros d w L; apply payment_local, L.
Qed.

Lemma table_local_shows {A} t (m : loc -> M A) w1 w2 d1 d2 :
  table_local t m ->
  nth_error (heap w1) d1 = Some t -> nth_error (heap w2) d2 = Some t ->
  shows (m d1) w1 = shows (m d2) w2.
Proof.
  intros (r & h & f & p & Hm) L1 L2.
  rewrite (shows_run _ _ _ _ _ _ (Hm d1 w1 L1)), (shows_run _ _ _ _ _ _ (Hm d2 w2 L2)).
  reflexivity.
Qed.

(** X15.  What [main] puts on the page, and how it ends, depends on the table
    and the selection only: frames, figures and page content left by earlier
    runs change nothing.  So a run of the script shows the same for the same
    file and selection, from any state. *)
Theorem page_depends_on_file_and_selection {Fl : Float64} file picked w1 w2 :
  shows (script file picked) w1 = shows (script file picked) w2 /\
  forall t d1 d2,
    nth_error (heap w1) d1 = Some t -> nth_error (heap w2) d2 = Some t ->
    shows (main d1 picked) w1 = shows (main d2 picked) w2.
Proof.
  split.
  - unfold script. destruct (load_result file) as [[t Run]|[h Run]].
    + destruct (main_table_local t picked) as (r & h & f & p & Hm).
      assert (E : forall w, bind (module_init file) (fun datas => main datas picked) w
                            = (r, mkWorld (heap w ++ [t] ++ h) (f ++ figures w) (page w ++ p))).
      { intros w. rewrite (bind_run _ _ _ _ _ (Run w)).
        rewrite (Hm (List.length (heap w))
                    (mkWorld (heap w ++ [t]) (figures w) (page w))
                    (nth_error_app_len (heap w) t)).
        cbn [heap figures page].
        rewrite <- app_assoc. reflexivity. }
      rewrite (shows_run _ _ _ _ _ _ (E w1)), (shows_run _ _ _ _ _ _ (E w2)). reflexivity.
    + rewrite (shows_run_nothing _ _ _ _ _ (bind_fail _ _ _ _ _ (Run w1))).
      rewrite (shows_run_nothing _ _ _ _ _ (bind_fail _ _ _ _ _ (Run w2))). reflexivity.
  - intros t d1 d2. apply (table_local_shows t (fun d => main d picked)).
    apply main_table_local.
Qed.
